(** * djangosaml2 views: the SAML 2.0 service-provider flow handlers

    A shallow embedding of [djangosaml2/views.py]: the five views
    ([login], [assertion_consumer_service], [logout], [logout_service],
    [metadata]) and [_load_conf], written as state-passing programs over a
    world that holds the Python objects of the configuration, the browser
    session, the [shelve] file of protocol state and the trace of calls on
    the collaborators (pysaml2, django.contrib.auth, shelve). *)

From stdpp Require Import base strings gmap list.
From Stdlib Require Import ZArith Lia.

Local Open Scope string_scope.
Local Open Scope list_scope.
Local Open Scope nat_scope.

(** ** Python objects

    [settings.SAML_CONFIG] is a dict of dicts and lists: mutable objects that
    are shared by reference.  Objects live in a store, a reference is an index
    into it, and a new object is put at the end. *)
Module Py.

Abbreviation loc := nat (only parsing).

Inductive pyval :=
| VNone
| VBool (b : bool)
| VInt (n : Z)
| VStr (s : string)
| VRef (l : loc).

Inductive pyobj :=
| ODict (items : list (string * pyval))
| OList (elems : list pyval)
| OInst (cls : string) (attrs : list (string * pyval)).

Abbreviation heap := (list pyobj) (only parsing).

Abbreviation memo := (gmap nat nat) (only parsing).

(** The values an object holds. *)
Definition vals (o : pyobj) : list pyval :=
  match o with
  | ODict items => items.*2
  | OList elems => elems
  | OInst _ attrs => attrs.*2
  end.

(** The same object with other values in the same places. *)
Definition with_vals (o : pyobj) (vs : list pyval) : pyobj :=
  match o with
  | ODict items => ODict (zip (items.*1) vs)
  | OList _ => OList vs
  | OInst cls attrs => OInst cls (zip (attrs.*1) vs)
  end.

(** The empty object of the same type ([y = {}], [y = []]). *)
Definition blank (o : pyobj) : pyobj := with_vals o [].

(** [for a in x: y.append(deepcopy(a, memo))], the copier threaded through
    the store and the memo. *)
Fixpoint copy_each (copier : pyval → heap → memo → option (pyval * heap * memo))
    (xs : list pyval) (h : heap) (m : memo) : option (list pyval * heap * memo) :=
  match xs with
  | [] => Some ([], h, m)
  | x :: xs =>
      match copier x h m with
      | None => None
      | Some (y, h1, m1) =>
          match copy_each copier xs h1 m1 with
          | None => None
          | Some (ys, h2, m2) => Some (y :: ys, h2, m2)
          end
      end
  end.

(** [copy.deepcopy(x, memo)] of the standard library.  Atoms are returned as
    they are; an object already in the memo gives its copy; otherwise the
    empty copy is created and entered in the memo before the values are
    copied into it, which is what ends the recursion on a cyclic object.
    The first argument bounds the depth of the recursion (the interpreter's
    recursion limit); [None] is a depth that was not enough, or a reference
    to no object. *)
Fixpoint deepcopy_rec (depth : nat) (x : pyval) (h : heap) (m : memo)
    : option (pyval * heap * memo) :=
  match depth with
  | O => None
  | S depth =>
      match x with
      | VRef l =>
          match m !! l with
          | Some l' => Some (VRef l', h, m)
          | None =>
              match h !! l with
              | None => None
              | Some o =>
                  let l' := length h in
                  match copy_each (deepcopy_rec depth) (vals o)
                          (h ++ [blank o]) (<[l := l']> m) with
                  | None => None
                  | Some (ys, h1, m1) =>
                      Some (VRef l', <[l' := with_vals o ys]> h1, m1)
                  end
              end
          end
      | _ => Some (x, h, m)
      end
  end.

(** No object graph in a store of [n] objects is deeper than [n]. *)
Definition deepcopy (x : pyval) (h : heap) : option (pyval * heap) :=
  match deepcopy_rec (S (length h)) x h ∅ with
  | Some (y, h', _) => Some (y, h')
  | None => None
  end.

(** [copy.copy(x)]: a new object holding the same values. *)
Definition shallowcopy (x : pyval) (h : heap) : option (pyval * heap) :=
  match x with
  | VRef l =>
      match h !! l with
      | Some o => Some (VRef (length h), h ++ [o])
      | None => None
      end
  | _ => Some (x, h)
  end.

(** A value points nowhere below [w]. *)
Definition above (w : loc) (v : pyval) : Prop :=
  match v with
  | VRef l => w ≤ l
  | _ => True
  end.

(** A value points to an object of the store. *)
Definition bound (n : nat) (v : pyval) : Prop :=
  match v with
  | VRef l => l < n
  | _ => True
  end.

(** The objects from [w] on hold no reference to an object below [w]. *)
Definition closed_above (w : loc) (h : heap) : Prop :=
  ∀ l o, w ≤ l → h !! l = Some o → Forall (above w) (vals o).

(** No object holds a reference to no object. *)
Definition heap_wf (h : heap) : Prop :=
  Forall (λ o, Forall (bound (length h)) (vals o)) h.

#[export] Instance bound_dec n v : Decision (bound n v).
Proof. destruct v; simpl; apply _. Defined.

#[export] Instance heap_wf_dec h : Decision (heap_wf h).
Proof. unfold heap_wf. apply _. Defined.

(** The objects below [w] are the same in both stores. *)
Definition same_below (w : loc) (h h' : heap) : Prop :=
  ∀ l, l < w → h' !! l = h !! l.

(** How many of the objects below [n] have no copy in the memo yet. *)
Fixpoint pending (m : memo) (n : nat) : nat :=
  match n with
  | O => 0
  | S n => (if m !! n is Some _ then 0 else 1) + pending m n
  end.

(** What copying keeps true of a store and a memo: nothing from [w] on, and
    no copy, points below [w]. *)
Definition copy_inv (w : loc) (h : heap) (m : memo) : Prop :=
  w ≤ length h ∧ closed_above w h ∧ map_Forall (λ _ l', w ≤ l') m.

(** What a copy made under [copy_inv] is: the invariant still holds, no
    object was removed, nothing below [w] was written and nothing left the
    memo. *)
Definition copied (w : loc) (h : heap) (m : memo) (h' : heap) (m' : memo)
    : Prop :=
  copy_inv w h' m' ∧ length h ≤ length h' ∧ same_below w h h' ∧ m ⊆ m'.

Definition copier_sound (w : loc)
    (copier : pyval → heap → memo → option (pyval * heap * memo)) : Prop :=
  ∀ x h m y h' m',
    copy_inv w h m → copier x h m = Some (y, h', m') →
    above w y ∧ copied w h m h' m'.

(** The objects below [w] refer to objects below [w] only: the store as it
    was when the copy began. *)
Definition old_bound (w : loc) (h : heap) : Prop :=
  ∀ l o, l < w → h !! l = Some o → Forall (bound w) (vals o).

Definition copier_total (w : loc) (k : nat)
    (copier : pyval → heap → memo → option (pyval * heap * memo)) : Prop :=
  ∀ x h m,
    copy_inv w h m → old_bound w h → bound w x → pending m w < k →
    is_Some (copier x h m).

End Py.

Import Py.

(** ** Requests, responses, exceptions *)

(** [request.GET] and [request.POST]. *)
Record HttpRequest := {
  GET : gmap string string;
  POST : gmap string string;
}.

(** The context the discovery template is rendered with. *)
Record WayfContext := {
  available_idps : list (string * string);
  came_from : string;
}.

Inductive HttpResponse :=
| Response (content : string) (content_type : option string)
| ResponseRedirect (url : string)
| Rendered (template : string) (context : WayfContext).

(** [HttpResponse(content)], with the content type left to the framework. *)
Definition HttpResponse_of (content : string) : HttpResponse :=
  Response content None.

(** The exceptions a view can end with.  [DuplicateRequestId] and
    [NotAuthenticated] are names of the design's error taxonomy. *)
Inductive exn :=
| KeyError (key : string)
| IndexError
| TypeError
| AssertionError
| RecursionError
| Http404 (msg : string)
| DuplicateRequestId (id : string)
| NotAuthenticated.

Inductive result (A : Type) :=
| Ok (a : A)
| Raise (e : exn).
Arguments Ok {A} a.
Arguments Raise {A} e.

(** ** The collaborators *)

(** What [response.session_id()] and [response.session_info()] of a verified
    authentication response give. *)
Record AuthnResponse := {
  session_id : string;
  session_info : gmap string string;
}.

(** [(session_id, code, head, body)], what pysaml2 answers a logout with. *)
Record LogoutResult := {
  lr_session_id : string;
  lr_code : string;
  lr_head : list (string * string);
  lr_body : string;
}.

(** The calls the views make on pysaml2, indexed by the type of the answer.
    [SPConfig] and [Saml2Client] instances are objects of the store. *)
Inductive LibCall : Type → Type :=
| SPConfig_new : LibCall loc
| SPConfig_load (conf : loc) (cnf : pyval) : LibCall unit
| Is_wayf_needed (conf : loc) : LibCall bool
| Get_available_idps (conf : loc) : LibCall (list (string * string))
| Single_sign_on_service (conf : loc) (idp : string) : LibCall string
| SPConfig_getitem (conf : loc) (key : string) : LibCall (option pyval)
| SPConfig_get (conf : loc) (key : string) (default : pyval) : LibCall pyval
| SPConfig_xmlsec (conf : loc) : LibCall pyval
| Saml2Client_new (conf : loc) (state_cache identity_cache : bool) : LibCall loc
| Authenticate (client : loc) (location : option string)
    (relay_state binding : string) : LibCall (string * list string)
| Client_response (client : loc) (post : gmap string string)
    (entityid : pyval) (outstanding_queries : gmap string string)
    : LibCall (option AuthnResponse)
| Global_logout (client : loc) (subject_id : string) : LibCall LogoutResult
| Logout_response (client : loc) (xmlstr binding : string)
    : LibCall (option LogoutResult)
| Logout_request (client : loc) (get : gmap string string)
    (subject_id : string) : LibCall (option (list (string * string)) * bool)
| Entity_descriptor (conf : loc) (valid_for : pyval) : LibCall pyval
| SecurityContext_new (xmlsec key_file : pyval) : LibCall pyval
| Entities_descriptor (eds : list pyval) (valid_for : pyval)
    (name ed_id : string) (sign : bool) (secc : pyval) : LibCall pyval
| Str (output : pyval) : LibCall string.

(** The references a call hands to the library, and those it gets back. *)
Definition call_refs {A} (c : LibCall A) : list pyval :=
  match c with
  | SPConfig_new => []
  | SPConfig_load conf cnf => [VRef conf; cnf]
  | Is_wayf_needed conf | Get_available_idps conf
  | Single_sign_on_service conf _ | SPConfig_getitem conf _
  | SPConfig_xmlsec conf | Saml2Client_new conf _ _ => [VRef conf]
  | SPConfig_get conf _ default => [VRef conf; default]
  | Authenticate client _ _ _ | Global_logout client _
  | Logout_response client _ _ | Logout_request client _ _ => [VRef client]
  | Client_response client _ entityid _ => [VRef client; entityid]
  | Entity_descriptor conf valid_for => [VRef conf; valid_for]
  | SecurityContext_new xmlsec key_file => [xmlsec; key_file]
  | Entities_descriptor eds valid_for _ _ _ secc => eds ++ [valid_for; secc]
  | Str output => [output]
  end.

Definition ret_refs {A} (c : LibCall A) : A → list pyval :=
  match c in LibCall A return A → list pyval with
  | SPConfig_new | Saml2Client_new _ _ _ => λ l, [VRef l]
  | SPConfig_getitem _ _ => λ v, match v with Some v => [v] | None => [] end
  | SPConfig_get _ _ _ | SPConfig_xmlsec _ | Entity_descriptor _ _
  | SecurityContext_new _ _ | Entities_descriptor _ _ _ _ _ _ => λ v, [v]
  | _ => λ _, []
  end.

(** What is within the library's reach during a call: the store of objects,
    the identity cache kept in the session and the protocol state of the
    shelf, the last two only when the client was built on them.  Of the
    shelf, which was opened with [writeback=True], the library sees the
    entries ([lv_state]): those it has read or assigned are cached, and
    changing a cached entry in place changes what is seen and not the file.
    An assignment [state[k] = v] is written through to the file at once, so
    the file ([lv_file]) changes during a call as well. *)
Record LibView := {
  lv_heap : heap;
  lv_identity : gmap string string;
  lv_state : gmap string string;
  lv_file : gmap string string;
}.

Inductive Event :=
| ELib {A : Type} (c : LibCall A) (a : A)
| EAuthLogin (user : string)
| EAuthLogout
| EShelveOpen (filename : string)
| EShelveSync
| EShelveClose (written : gmap string string).

(** ** The world a view runs in *)

(** [django.conf.settings]: the attributes the views read.  The three
    metadata attributes may be missing. *)
Record Settings := {
  SAML_CONFIG : pyval;
  SAML_METADATA_ID : option string;
  SAML_METADATA_NAME : option string;
  SAML_METADATA_SIGN : option bool;
}.

(** [request.session]: the items the views store under their own keys, what
    [OutstandingQueriesCache] and [IdentityCache] keep in it, and the user
    [django.contrib.auth] has logged in. *)
Record Session := {
  items : gmap string string;
  outstanding : gmap string string;
  identities : gmap string string;
  user : option string;
}.

Definition empty_session : Session :=
  {| items := ∅; outstanding := ∅; identities := ∅; user := None |}.

Record World := {
  settings : Settings;
  objects : heap;
  session : Session;
  (** the file [state.saml] *)
  state_file : gmap string string;
  (** the contents seen through the shelf the view has opened *)
  shelf : option (gmap string string);
}.

Definition set_objects (h : heap) (w : World) : World :=
  {| settings := settings w; objects := h; session := session w;
     state_file := state_file w; shelf := shelf w |}.

Definition set_session (s : Session) (w : World) : World :=
  {| settings := settings w; objects := objects w; session := s;
     state_file := state_file w; shelf := shelf w |}.

Definition set_state_file (f : gmap string string) (w : World) : World :=
  {| settings := settings w; objects := objects w; session := session w;
     state_file := f; shelf := shelf w |}.

Definition set_shelf (sh : option (gmap string string)) (w : World) : World :=
  {| settings := settings w; objects := objects w; session := session w;
     state_file := state_file w; shelf := sh |}.

Definition set_items (m : gmap string string) (s : Session) : Session :=
  {| items := m; outstanding := outstanding s; identities := identities s;
     user := user s |}.

Definition set_outstanding (m : gmap string string) (s : Session) : Session :=
  {| items := items s; outstanding := m; identities := identities s;
     user := user s |}.

Definition set_identities (m : gmap string string) (s : Session) : Session :=
  {| items := items s; outstanding := outstanding s; identities := m;
     user := user s |}.

Definition set_user (u : option string) (s : Session) : Session :=
  {| items := items s; outstanding := outstanding s;
     identities := identities s; user := u |}.

(** ** Programs: state, exceptions and the trace of calls *)

Record Run (A : Type) := {
  outcome : result A;
  final : World;
  trace : list Event;
}.
Arguments outcome {A} r.
Arguments final {A} r.
Arguments trace {A} r.

Definition M (A : Type) : Type := World → Run A.

#[export] Instance M_ret : MRet M := λ A a w,
  {| outcome := Ok a; final := w; trace := [] |}.

#[export] Instance M_bind : MBind M := λ A B f m w,
  let r := m w in
  match outcome r with
  | Ok a =>
      let r' := f a (final r) in
      {| outcome := outcome r'; final := final r';
         trace := trace r ++ trace r' |}
  | Raise e => {| outcome := Raise e; final := final r; trace := trace r |}
  end.

Definition raise {A} (e : exn) : M A := λ w,
  {| outcome := Raise e; final := w; trace := [] |}.

Definition gets {A} (f : World → A) : M A := λ w,
  {| outcome := Ok (f w); final := w; trace := [] |}.

Definition modify (f : World → World) : M unit := λ w,
  {| outcome := Ok (); final := f w; trace := [] |}.

Definition emit (e : Event) : M unit := λ w,
  {| outcome := Ok (); final := w; trace := [e] |}.

(** [assert b] *)
Definition assert (b : bool) : M unit :=
  if b then mret () else raise AssertionError.

(** [d[key]] *)
Definition getitem (d : gmap string string) (key : string) : M string :=
  match d !! key with
  | Some v => mret v
  | None => raise (KeyError key)
  end.

(** [xs[i]] *)
Definition index {A} (xs : list A) (i : nat) : M A :=
  match xs !! i with
  | Some x => mret x
  | None => raise IndexError
  end.

(** [dict(head)]: of two pairs with the same key the later one stays. *)
Definition dict (head : list (string * string)) : gmap string string :=
  list_to_map (reverse head).

(** [request.session[key]] and [request.session[key] = value] *)
Definition session_getitem (key : string) : M string :=
  s ← gets session; getitem (items s) key.

Definition session_setitem (key value : string) : M unit :=
  modify (λ w, set_session (set_items (<[key := value]> (items (session w)))
                              (session w)) w).

(** [saml2.BINDING_HTTP_REDIRECT] *)
Definition BINDING_HTTP_REDIRECT : string :=
  "urn:oasis:names:tc:SAML:2.0:bindings:HTTP-Redirect".

(** The caches a [Saml2Client] was built on. *)
Inductive Caches :=
| NoCaches
| IdentityOnly
| StateAndIdentity.

(** Modelled from the spec: [IdentityCache] of djangosaml2/cache.py, which is
    not among the sources.  The Identity Record Tracker keeps its records in
    the session handle it was given; they are read and written by pysaml2
    only. *)
Definition IdentityCache (s : Session) : gmap string string := identities s.

Definition view (cs : Caches) (w : World) : LibView :=
  {| lv_heap := objects w;
     lv_identity :=
       match cs with
       | NoCaches => ∅
       | _ => IdentityCache (session w)
       end;
     lv_state :=
       match cs with
       | StateAndIdentity => default ∅ (shelf w)
       | _ => ∅
       end;
     lv_file :=
       match cs with
       | StateAndIdentity => state_file w
       | _ => ∅
       end |}.

Definition merge (cs : Caches) (v : LibView) (w : World) : World :=
  let w := set_objects (lv_heap v) w in
  match cs with
  | NoCaches => w
  | IdentityOnly =>
      set_session (set_identities (lv_identity v) (session w)) w
  | StateAndIdentity =>
      let w := set_session (set_identities (lv_identity v) (session w)) w in
      match shelf w with
      | Some _ => set_shelf (Some (lv_state v)) (set_state_file (lv_file v) w)
      | None => w
      end
  end.

(** Modelled from the spec: [OutstandingQueriesCache.set] of
    djangosaml2/cache.py, which is not among the sources.  The Outstanding
    Query Tracker's [record] inserts, and fails with [DuplicateRequestId]
    when the identifier is already there. *)
Definition oq_set (saml2_session_id came_from : string) : M unit := λ w,
  match outstanding (session w) !! saml2_session_id with
  | Some _ => raise (DuplicateRequestId saml2_session_id) w
  | None =>
      modify (λ w, set_session
                     (set_outstanding
                        (<[saml2_session_id := came_from]>
                           (outstanding (session w)))
                        (session w)) w) w
  end.

(** Modelled from the spec: [OutstandingQueriesCache.outstanding_queries] of
    djangosaml2/cache.py, the full set of Outstanding Queries. *)
Definition oq_outstanding_queries : M (gmap string string) :=
  gets (λ w, outstanding (session w)).

(** Modelled from the spec: [OutstandingQueriesCache.delete] of
    djangosaml2/cache.py, the tracker's [forget]: a removal that may be
    repeated. *)
Definition oq_delete (saml2_session_id : string) : M unit :=
  modify (λ w, set_session
                 (set_outstanding
                    (delete saml2_session_id (outstanding (session w)))
                    (session w)) w).

(** [shelve.open('state.saml', writeback=True)]: a shelf on the file, through
    which its entries are seen. *)
Definition shelve_open (filename : string) : M unit :=
  modify (λ w, set_shelf (Some (state_file w)) w);;
  emit (EShelveOpen filename).

(** [state.sync()]: the cached entries are written back, so that the file
    holds what is seen through the shelf. *)
Definition shelve_sync : M unit :=
  modify (λ w, match shelf w with
               | Some view => set_state_file view w
               | None => w
               end);;
  emit EShelveSync.

(** [Shelf.__del__], which runs when the last reference to the shelf goes:
    it calls [close()], which syncs the shelf and closes the file. *)
Definition shelf_del : M unit := λ w,
  match shelf w with
  | Some view =>
      {| outcome := Ok (); final := set_shelf None (set_state_file view w);
         trace := [EShelveClose view] |}
  | None => {| outcome := Ok (); final := w; trace := [] |}
  end.

(** A view that binds the shelf to its local [state], and builds on it a
    client that is a local as well.  When the view returns, its locals die,
    and the shelf with them.  When it ends in an exception, the traceback
    holds the frame and its locals: the shelf stays as the view left it. *)
Definition with_state_local {A} (body : M A) : M A :=
  a ← body;
  shelf_del;;
  mret a.

(** Whether the session belongs to a user other than [u]. *)
Definition belongs_to_another (u : string) (s : Session) : bool :=
  match user s with
  | Some other => bool_decide (other ≠ u)
  | None => false
  end.

(** [auth.login(request, user)]: a session that belongs to another user is
    flushed; the session of an anonymous visitor, and one of the same user,
    keeps what it holds. *)
Definition auth_login (u : string) : M unit :=
  modify (λ w, set_session
                 (set_user (Some u)
                    (if belongs_to_another u (session w) then empty_session
                     else session w)) w);;
  emit (EAuthLogin u).

(** [auth.logout(request)]: the session is flushed. *)
Definition auth_logout : M unit :=
  modify (set_session empty_session);;
  emit EAuthLogout.

Section views.

(** pysaml2: the answer to a call and what the call left of the objects and
    caches within its reach. *)
Variable lib : ∀ A, LibCall A → LibView → A * LibView.

(** [auth.authenticate(session_info=...)]: the user the authentication
    backends resolve, if any. *)
Variable auth_authenticate : gmap string string → option string.

(** The response of [django.contrib.auth.views.logout] once the session is
    torn down, and the one [login_required] sends an anonymous visitor. *)
Variable logged_out_response : HttpRequest → HttpResponse.
Variable redirect_to_login : HttpRequest → HttpResponse.

Definition call {A} (cs : Caches) (c : LibCall A) : M A := λ w,
  let r := lib A c (view cs w) in
  {| outcome := Ok r.1; final := merge cs r.2 w; trace := [ELib c r.1] |}.

(** [conf[key]] *)
Definition conf_getitem (conf : loc) (key : string) : M pyval :=
  v ← call NoCaches (SPConfig_getitem conf key);
  match v with
  | Some v => mret v
  | None => raise (KeyError key)
  end.

(** [copy.deepcopy(x)] *)
Definition copy_deepcopy (x : pyval) : M pyval := λ w,
  match deepcopy x (objects w) with
  | Some (y, h) => {| outcome := Ok y; final := set_objects h w; trace := [] |}
  | None => raise RecursionError w
  end.

(** [django.contrib.auth.views.logout(request)] *)
Definition django_logout (request : HttpRequest) : M HttpResponse :=
  auth_logout;;
  mret (logged_out_response request).

(** [@login_required] *)
Definition login_required (view_func : HttpRequest → M HttpResponse)
    (request : HttpRequest) : M HttpResponse :=
  u ← gets (λ w, user (session w));
  match u with
  | Some _ => view_func request
  | None => mret (redirect_to_login request)
  end.

Definition _load_conf : M loc :=
  conf ← call NoCaches SPConfig_new;
  cnf ← gets (λ w, SAML_CONFIG (settings w));
  cnf ← copy_deepcopy cnf;
  call NoCaches (SPConfig_load conf cnf);;
  mret conf.

Definition login (request : HttpRequest) : M HttpResponse :=
  let came_from := default "/" (GET request !! "next") in
  let selected_idp := GET request !! "idp" in
  conf ← _load_conf;
  wayf ← match selected_idp with
         | None => call NoCaches (Is_wayf_needed conf)
         | Some _ => mret false
         end;
  if (wayf : bool) then
    idps ← call NoCaches (Get_available_idps conf);
    mret (Rendered "djangosaml2/wayf.html"
            {| available_idps := idps; came_from := came_from |})
  else
    selected_idp ← match selected_idp with
                   | Some idp =>
                       sso ← call NoCaches (Single_sign_on_service conf idp);
                       mret (Some sso)
                   | None => mret None
                   end;
    client ← call NoCaches (Saml2Client_new conf false false);
    '(session_id, result) ←
      call NoCaches
        (Authenticate client selected_idp came_from BINDING_HTTP_REDIRECT);
    assert (bool_decide (length result = 2));;
    assert (bool_decide (result !! 0 = Some "Location"));;
    location ← index result 1;
    oq_set session_id came_from;;
    mret (ResponseRedirect location).

Definition assertion_consumer_service (request : HttpRequest)
    : M HttpResponse :=
  conf ← _load_conf;
  saml_response ← getitem (POST request) "SAMLResponse";
  let post : gmap string string := {["SAMLResponse" := saml_response]} in
  client ← call IdentityOnly (Saml2Client_new conf false true);
  outstanding_queries ← oq_outstanding_queries;
  entityid ← conf_getitem conf "entityid";
  response ← call IdentityOnly
               (Client_response client post entityid outstanding_queries);
  match response with
  | None =>
      mret (HttpResponse_of "SAML response has errors. Please check the logs")
  | Some response =>
      let session_id := session_id response in
      oq_delete session_id;;
      let session_info := session_info response in
      match auth_authenticate session_info with
      | None => mret (HttpResponse_of "user not valid")
      | Some user =>
          auth_login user;;
          name_id ← getitem session_info "name_id";
          session_setitem "SAML_SUBJECT_ID" name_id;;
          let relay_state := default "/" (POST request !! "RelayState") in
          mret (ResponseRedirect relay_state)
      end
  end.

(** The body of [logout], which [login_required] wraps. *)
Definition logout_view (request : HttpRequest) : M HttpResponse :=
  with_state_local (
    shelve_open "state.saml";;
    conf ← _load_conf;
    client ← call StateAndIdentity (Saml2Client_new conf true true);
    subject_id ← session_getitem "SAML_SUBJECT_ID";
    r ← call StateAndIdentity (Global_logout client subject_id);
    let headers := dict (lr_head r) in
    shelve_sync;;
    location ← getitem headers "Location";
    mret (ResponseRedirect location)).

Definition logout : HttpRequest → M HttpResponse :=
  login_required logout_view.

(** [response[0]] of the header list [logout_request] answers with, which is
    [None] when there is no answer. *)
Definition first_header (response : option (list (string * string)))
    : M (string * string) :=
  match response with
  | None => raise TypeError
  | Some headers => index headers 0
  end.

Definition logout_service (request : HttpRequest) : M HttpResponse :=
  with_state_local (
    conf ← _load_conf;
    shelve_open "state.saml";;
    client ← call StateAndIdentity (Saml2Client_new conf true true);
    subject_id ← session_getitem "SAML_SUBJECT_ID";
    match GET request !! "SAMLResponse", GET request !! "SAMLRequest" with
    | Some saml_response, _ =>
        response ← call StateAndIdentity
                     (Logout_response client saml_response BINDING_HTTP_REDIRECT);
        match response with
        | Some r =>
            if bool_decide (lr_code r = "200 Ok")
            then django_logout request
            else mret (HttpResponse_of "Error during logout")
        | None => mret (HttpResponse_of "Error during logout")
        end
    | None, Some _ =>
        '(response, success) ←
          call StateAndIdentity (Logout_request client (GET request) subject_id);
        if (success : bool) then
          auth_logout;;
          header ← first_header response;
          assert (bool_decide (header.1 = "Location"));;
          let url := header.2 in
          mret (ResponseRedirect url)
        else
          match response with
          | Some _ =>
              header ← first_header response;
              assert (bool_decide (header.1 = "Location"));;
              let url := header.2 in
              mret (ResponseRedirect url)
          | None => mret (HttpResponse_of "Error during logout")
          end
    | None, None =>
        raise (Http404 "No SAMLResponse or SAMLRequest parameter found")
    end).

Definition metadata (request : HttpRequest) : M HttpResponse :=
  ed_id ← gets (λ w, default "" (SAML_METADATA_ID (settings w)));
  name ← gets (λ w, default "" (SAML_METADATA_NAME (settings w)));
  sign ← gets (λ w, default false (SAML_METADATA_SIGN (settings w)));
  conf ← _load_conf;
  valid_for ← call NoCaches (SPConfig_get conf "valid_for" (VInt 24));
  ed ← call NoCaches (Entity_descriptor conf valid_for);
  xmlsec ← call NoCaches (SPConfig_xmlsec conf);
  key_file ← conf_getitem conf "key_file";
  secc ← call NoCaches (SecurityContext_new xmlsec key_file);
  output ← call NoCaches
             (Entities_descriptor [ed] valid_for name ed_id sign secc);
  content ← call NoCaches (Str output);
  mret (Response content (Some "text/xml; charset=utf8")).

End views.

(** The five protocol operations the URL configuration routes to. *)
Inductive View :=
| LoginView
| AssertionConsumerServiceView
| LogoutView
| LogoutServiceView
| MetadataView.

Definition run_view (lib : ∀ A, LibCall A → LibView → A * LibView)
    (auth_authenticate : gmap string string → option string)
    (logged_out_response redirect_to_login : HttpRequest → HttpResponse)
    (v : View) : HttpRequest → M HttpResponse :=
  match v with
  | LoginView => login lib
  | AssertionConsumerServiceView =>
      assertion_consumer_service lib auth_authenticate
  | LogoutView => logout lib redirect_to_login
  | LogoutServiceView => logout_service lib logged_out_response
  | MetadataView => metadata lib
  end.

(** ** A scripted stand-in for pysaml2

    It gives the answers it is told to give.  Loading a configuration
    writes into the dict it is given and into the dicts that one holds, a
    logout assigns an entry of the state cache, the answer to a logout
    changes one in place, and a verified response leaves an entry in the
    identity cache. *)
Module Scripted.

Record Script := {
  wayf_needed : bool;
  idps : list (string * string);
  sso_location : string;
  entityid : option string;
  authn : string * list string;
  verified : option AuthnResponse;
  logout_sent : LogoutResult;
  logout_answered : option LogoutResult;
  logout_asked : option (list (string * string)) * bool;
  xml : string;
}.

(** Mark a dict as seen. *)
Definition touch (v : pyval) (h : heap) : heap :=
  match v with
  | VRef l =>
      match h !! l with
      | Some (ODict items) => <[l := ODict (("loaded", VBool true) :: items)]> h
      | _ => h
      end
  | _ => h
  end.

Definition load (conf : loc) (cnf : pyval) (h : heap) : heap :=
  let inner := match cnf with
               | VRef l => match h !! l with Some o => vals o | None => [] end
               | _ => []
               end in
  <[conf := OInst "SPConfig" [("cnf", cnf)]]> (foldr touch (touch cnf h) inner).

Definition alloc (o : pyobj) (v : LibView) : loc * LibView :=
  (length (lv_heap v),
   {| lv_heap := lv_heap v ++ [o]; lv_identity := lv_identity v;
      lv_state := lv_state v; lv_file := lv_file v |}).

Definition set_heap (h : heap) (v : LibView) : LibView :=
  {| lv_heap := h; lv_identity := lv_identity v; lv_state := lv_state v;
     lv_file := lv_file v |}.

(** [state[k] = x]: seen through the shelf, and written to the file. *)
Definition note_state (k x : string) (v : LibView) : LibView :=
  {| lv_heap := lv_heap v; lv_identity := lv_identity v;
     lv_state := <[k := x]> (lv_state v); lv_file := <[k := x]> (lv_file v) |}.

(** A change made in place to the entry under [k]: seen through the shelf,
    and not in the file until the shelf is synced. *)
Definition mark_state (k x : string) (v : LibView) : LibView :=
  {| lv_heap := lv_heap v; lv_identity := lv_identity v;
     lv_state := <[k := x]> (lv_state v); lv_file := lv_file v |}.

Definition note_identity (k x : string) (v : LibView) : LibView :=
  {| lv_heap := lv_heap v; lv_identity := <[k := x]> (lv_identity v);
     lv_state := lv_state v; lv_file := lv_file v |}.

Definition lib (s : Script) (A : Type) (c : LibCall A) (v : LibView)
    : A * LibView :=
  match c in LibCall A return A * LibView with
  | SPConfig_new => alloc (OInst "SPConfig" []) v
  | SPConfig_load conf cnf => ((), set_heap (load conf cnf (lv_heap v)) v)
  | Is_wayf_needed _ => (wayf_needed s, v)
  | Get_available_idps _ => (idps s, v)
  | Single_sign_on_service _ _ => (sso_location s, v)
  | SPConfig_getitem _ key =>
      (if bool_decide (key = "entityid") then VStr <$> entityid s
       else Some (VStr "sp.key"), v)
  | SPConfig_get _ _ default => (default, v)
  | SPConfig_xmlsec _ => (VStr "/usr/bin/xmlsec1", v)
  | Saml2Client_new conf _ _ => alloc (OInst "Saml2Client" [("config", VRef conf)]) v
  | Authenticate _ _ _ _ => (authn s, v)
  | Client_response _ _ _ _ =>
      (verified s,
       match verified s with
       | Some r => note_identity (session_id r) "seen" v
       | None => v
       end)
  | Global_logout _ subject_id => (logout_sent s, note_state subject_id "logout sent" v)
  | Logout_response _ _ _ => (logout_answered s, mark_state "reply" "seen" v)
  | Logout_request _ _ subject_id => (logout_asked s, note_state subject_id "logout asked" v)
  | Entity_descriptor _ _ => (VStr "<EntityDescriptor/>", v)
  | SecurityContext_new _ _ => (VNone, v)
  | Entities_descriptor _ _ _ _ _ _ => (VStr (xml s), v)
  | Str (VStr x) => (x, v)
  | Str _ => ("", v)
  end.

(** A service provider with one identity provider. *)
Definition script : Script :=
  {| wayf_needed := false;
     idps := [("https://idp.example/metadata", "Example IdP")];
     sso_location := "https://idp.example/sso";
     entityid := Some "https://sp.example/metadata";
     authn := ("id-1", ["Location"; "https://idp.example/sso?SAMLRequest=abc"]);
     verified :=
       Some {| session_id := "id-1";
               session_info := {["name_id" := "alice@idp.example"]} |};
     logout_sent :=
       {| lr_session_id := "id-2"; lr_code := "302 Found";
          lr_head := [("Location", "https://idp.example/slo?SAMLRequest=xyz")];
          lr_body := "" |};
     logout_answered :=
       Some {| lr_session_id := "id-2"; lr_code := "200 Ok"; lr_head := [];
               lr_body := "" |};
     logout_asked := (Some [("Location", "https://idp.example/done")], true);
     xml := "<EntitiesDescriptor/>" |}.

(** [settings.SAML_CONFIG = {'entityid': ..., 'service': {'sp': {...}},
    'metadata': [...]}] *)
Definition config_objects : heap :=
  [ ODict [("entityid", VStr "https://sp.example/metadata");
           ("service", VRef 1); ("metadata", VRef 3)];
    ODict [("sp", VRef 2)];
    ODict [("name", VStr "Example SP")];
    OList [VStr "idp.xml"] ].

Definition the_settings : Settings :=
  {| SAML_CONFIG := VRef 0; SAML_METADATA_ID := None;
     SAML_METADATA_NAME := Some "Example SP"; SAML_METADATA_SIGN := None |}.

Definition anonymous : World :=
  {| settings := the_settings; objects := config_objects;
     session := empty_session; state_file := ∅; shelf := None |}.

(** A user who came in through the identity provider. *)
Definition logged_in : World :=
  {| settings := the_settings; objects := config_objects;
     session := {| items := {["SAML_SUBJECT_ID" := "alice@idp.example"]};
                   outstanding := ∅; identities := ∅; user := Some "alice" |};
     state_file := ∅; shelf := None |}.

(** A user with a local session and no SAML subject identifier. *)
Definition local_only : World :=
  {| settings := the_settings; objects := config_objects;
     session := {| items := ∅; outstanding := ∅; identities := ∅;
                   user := Some "bob" |};
     state_file := ∅; shelf := None |}.

(** A service provider that has to ask which identity provider to use. *)
Definition script_wayf : Script :=
  {| wayf_needed := true;
     idps := [("https://idp.example/metadata", "Example IdP");
              ("https://idp.example.org/metadata", "Other IdP")];
     sso_location := sso_location script; entityid := entityid script;
     authn := authn script; verified := verified script;
     logout_sent := logout_sent script;
     logout_answered := logout_answered script;
     logout_asked := logout_asked script; xml := xml script |}.

Definition users (session_info : gmap string string) : option string :=
  match session_info !! "name_id" with
  | Some "alice@idp.example" => Some "alice"
  | _ => None
  end.

Definition page (request : HttpRequest) : HttpResponse :=
  Response "Logged out" None.

Definition to_login (request : HttpRequest) : HttpResponse :=
  ResponseRedirect "/accounts/login/".

Definition get (q : list (string * string)) : HttpRequest :=
  {| GET := list_to_map q; POST := ∅ |}.

Definition post (q : list (string * string)) : HttpRequest :=
  {| GET := ∅; POST := list_to_map q |}.

End Scripted.

(** ** What the library may touch

    pysaml2 reaches the objects it is handed, those reachable from them and
    those it creates.  So when the references handed to a call point at [w]
    or above, and nothing from [w] on points below [w], the call leaves the
    objects below [w] as they are, and what it hands back and leaves behind
    is again at [w] or above. *)
Definition confined (lib : ∀ A, LibCall A → LibView → A * LibView) : Prop :=
  ∀ A (c : LibCall A) (v : LibView) (w : loc),
    w ≤ length (lv_heap v) → closed_above w (lv_heap v) →
    Forall (above w) (call_refs c) →
    same_below w (lv_heap v) (lv_heap (lib A c v).2) ∧
    length (lv_heap v) ≤ length (lv_heap (lib A c v).2) ∧
    closed_above w (lv_heap (lib A c v).2) ∧
    Forall (above w) (ret_refs c (lib A c v).1).

Definition guarded (w0 : loc) (h0 : heap) (s0 : Settings) (w : World) : Prop :=
  w0 ≤ length (objects w) ∧ closed_above w0 (objects w) ∧
  same_below w0 h0 (objects w) ∧ settings w = s0.

(** [m] keeps the world guarded, however it ends, and what it returns
    satisfies [Q]. *)
Definition keeps (w0 : loc) (h0 : heap) (s0 : Settings) {A} (m : M A)
    (Q : A → Prop) : Prop :=
  ∀ w, guarded w0 h0 s0 w →
    guarded w0 h0 s0 (final (m w)) ∧ ∀ a, outcome (m w) = Ok a → Q a.

(** ** Running a view step by step *)

(** [Φ] holds of how [m] ends from [w]. *)
Definition wp {A} (m : M A) (w : World)
    (Φ : result A → World → list Event → Prop) : Prop :=
  Φ (outcome (m w)) (final (m w)) (trace (m w)).

(** ** What a trace shows *)

(** The users [auth.login] was called for. *)
Definition logins (t : list Event) : list string :=
  omap (λ e, match e with EAuthLogin u => Some u | _ => None end) t.

(** How often [auth.logout] was called. *)
Definition teardowns (t : list Event) : nat :=
  length (omap (λ e, match e with EAuthLogout => Some () | _ => None end) t).

(** What [client.response] answered. *)
Definition verifications (t : list Event) : list (option AuthnResponse) :=
  omap (λ e,
    match e with
    | ELib c a =>
        match c in LibCall A return A → option (option AuthnResponse) with
        | Client_response _ _ _ _ => λ a, Some a
        | _ => λ _, None
        end a
    | _ => None
    end) t.

(** ** Well-formed worlds *)

(** Python is memory safe: a call leaves no reference to no object behind,
    and removes no object that is referred to. *)
Definition memory_safe (lib : ∀ A, LibCall A → LibView → A * LibView) : Prop :=
  ∀ A (c : LibCall A) (v : LibView),
    heap_wf (lv_heap v) →
    Forall (bound (length (lv_heap v))) (call_refs c) →
    heap_wf (lv_heap (lib A c v).2) ∧
    length (lv_heap v) ≤ length (lv_heap (lib A c v).2).

(** [settings.SAML_CONFIG] is an object of the store, and the store holds no
    reference to no object. *)
Definition world_wf (w : World) : Prop :=
  heap_wf (objects w) ∧ bound (length (objects w)) (SAML_CONFIG (settings w)).

#[export] Instance world_wf_dec w : Decision (world_wf w).
Proof. unfold world_wf. apply _. Defined.

(** What [conf.is_wayf_needed()] answered. *)
Definition wayf_answers (t : list Event) : list bool :=
  omap (λ e,
    match e with
    | ELib c a =>
        match c in LibCall A return A → option bool with
        | Is_wayf_needed _ => λ a, Some a
        | _ => λ _, None
        end a
    | _ => None
    end) t.

(** The authentication requests built: location, relay state and binding. *)
Definition authn_requests (t : list Event)
    : list (option string * string * string) :=
  omap (λ e,
    match e with
    | ELib c _ =>
        match c with
        | Authenticate _ location relay_state binding =>
            Some (location, relay_state, binding)
        | _ => None
        end
    | _ => None
    end) t.

(** What [client.authenticate] answered. *)
Definition authn_answers (t : list Event) : list (string * list string) :=
  omap (λ e,
    match e with
    | ELib c a =>
        match c in LibCall A return A → option (string * list string) with
        | Authenticate _ _ _ _ => λ a, Some a
        | _ => λ _, None
        end a
    | _ => None
    end) t.

(** The subjects a logout request was built for. *)
Definition logout_requests_built (t : list Event) : list string :=
  omap (λ e,
    match e with
    | ELib c _ =>
        match c with
        | Global_logout _ subject_id => Some subject_id
        | _ => None
        end
    | _ => None
    end) t.

(** What [client.logout_response] answered. *)
Definition logout_response_answers (t : list Event)
    : list (option LogoutResult) :=
  omap (λ e,
    match e with
    | ELib c a =>
        match c in LibCall A return A → option (option LogoutResult) with
        | Logout_response _ _ _ => λ a, Some a
        | _ => λ _, None
        end a
    | _ => None
    end) t.

(** What [client.logout_request] answered. *)
Definition logout_request_answers (t : list Event)
    : list (option (list (string * string)) * bool) :=
  omap (λ e,
    match e with
    | ELib c a =>
        match c in LibCall A
              return A → option (option (list (string * string)) * bool) with
        | Logout_request _ _ _ => λ a, Some a
        | _ => λ _, None
        end a
    | _ => None
    end) t.

(** The keys [conf.get] was asked for, with their defaults. *)
Definition config_lookups (t : list Event) : list (string * pyval) :=
  omap (λ e,
    match e with
    | ELib c _ =>
        match c with
        | SPConfig_get _ key default => Some (key, default)
        | _ => None
        end
    | _ => None
    end) t.

(** What [conf[key]] answered. *)
Definition config_item (key : string) (t : list Event)
    : list (option pyval) :=
  omap (λ e,
    match e with
    | ELib c a =>
        match c in LibCall A return A → option (option pyval) with
        | SPConfig_getitem _ k =>
            λ a, if bool_decide (k = key) then Some a else None
        | _ => λ _, None
        end a
    | _ => None
    end) t.

(** ** The same objects at other addresses *)

(** [v], when what it refers to lies [δ] further up in the store. *)
Definition shift (δ : nat) (v : pyval) : pyval :=
  match v with
  | VRef l => VRef (l + δ)
  | _ => v
  end.

Definition shift_obj (δ : nat) (o : pyobj) : pyobj :=
  match o with
  | ODict items => ODict ((λ kv, (kv.1, shift δ kv.2)) <$> items)
  | OList elems => OList (shift δ <$> elems)
  | OInst cls attrs => OInst cls ((λ kv, (kv.1, shift δ kv.2)) <$> attrs)
  end.

Definition shift_call (δ : nat) {A} (c : LibCall A) : LibCall A :=
  match c with
  | SPConfig_new => SPConfig_new
  | SPConfig_load conf cnf => SPConfig_load (conf + δ) (shift δ cnf)
  | Is_wayf_needed conf => Is_wayf_needed (conf + δ)
  | Get_available_idps conf => Get_available_idps (conf + δ)
  | Single_sign_on_service conf idp => Single_sign_on_service (conf + δ) idp
  | SPConfig_getitem conf key => SPConfig_getitem (conf + δ) key
  | SPConfig_get conf key default =>
      SPConfig_get (conf + δ) key (shift δ default)
  | SPConfig_xmlsec conf => SPConfig_xmlsec (conf + δ)
  | Saml2Client_new conf state_cache identity_cache =>
      Saml2Client_new (conf + δ) state_cache identity_cache
  | Authenticate client location relay_state binding =>
      Authenticate (client + δ) location relay_state binding
  | Client_response client post entityid outstanding_queries =>
      Client_response (client + δ) post (shift δ entityid) outstanding_queries
  | Global_logout client subject_id => Global_logout (client + δ) subject_id
  | Logout_response client xmlstr binding =>
      Logout_response (client + δ) xmlstr binding
  | Logout_request client get subject_id =>
      Logout_request (client + δ) get subject_id
  | Entity_descriptor conf valid_for =>
      Entity_descriptor (conf + δ) (shift δ valid_for)
  | SecurityContext_new xmlsec key_file =>
      SecurityContext_new (shift δ xmlsec) (shift δ key_file)
  | Entities_descriptor eds valid_for name ed_id sign secc =>
      Entities_descriptor (shift δ <$> eds) (shift δ valid_for) name ed_id sign
        (shift δ secc)
  | Str output => Str (shift δ output)
  end.

Definition shift_ret (δ : nat) {A} (c : LibCall A) : A → A :=
  match c in LibCall A return A → A with
  | SPConfig_new | Saml2Client_new _ _ _ => λ l, l + δ
  | SPConfig_getitem _ _ => fmap (shift δ)
  | SPConfig_get _ _ _ | SPConfig_xmlsec _ | Entity_descriptor _ _
  | SecurityContext_new _ _ | Entities_descriptor _ _ _ _ _ _ => shift δ
  | _ => λ a, a
  end.

(** The objects of [h1] from [n] on are those of [h2] from [n + δ] on, with
    the references they hold moved up by [δ]. *)
Definition moved (n δ : nat) (h1 h2 : heap) : Prop :=
  n ≤ length h1 ∧ n + δ ≤ length h2 ∧
  drop (n + δ) h2 = shift_obj δ <$> drop n h1.

(** What pysaml2 does with the objects it is handed does not depend on
    where they lie in the store: handed the same objects at other addresses
    and the same caches, it answers the same, up to the addresses, and leaves
    the same objects behind.  This is asked of calls that are handed
    references at [n] or above, in a store in which nothing from [n] on
    refers to an object below [n]. *)
Definition position_independent
    (lib : ∀ A, LibCall A → LibView → A * LibView) : Prop :=
  ∀ (n δ : nat) A (c : LibCall A) (v1 v2 : LibView),
    moved n δ (lv_heap v1) (lv_heap v2) →
    lv_identity v2 = lv_identity v1 → lv_state v2 = lv_state v1 →
    lv_file v2 = lv_file v1 →
    closed_above n (lv_heap v1) →
    Forall (above n) (call_refs c) →
    (lib A (shift_call δ c) v2).1 = shift_ret δ c (lib A c v1).1 ∧
    moved n δ (lv_heap (lib A c v1).2) (lv_heap (lib A (shift_call δ c) v2).2).

(** A copier that makes the same copy in both stores, up to the addresses,
    of a value of the part [p] they share. *)
Definition copier_moved (n δ : nat) (p : heap)
    (copier : pyval → heap → memo → option (pyval * heap * memo)) : Prop :=
  ∀ x h1 m1 h2 y1 h1' m1',
    bound n x → same_below n p h1 → same_below n p h2 → moved n δ h1 h2 →
    copier x h1 m1 = Some (y1, h1', m1') →
    ∃ h2',
      copier x h2 ((λ l, l + δ) <$> m1)
      = Some (shift δ y1, h2', (λ l, l + δ) <$> m1') ∧
      same_below n p h1' ∧ same_below n p h2' ∧ moved n δ h1' h2'.

(** Two worlds with the same configuration: the settings are [s0], the first
    [n] objects are those of [p] in both, and what the second holds from
    [n + δ] on is what the first holds from [n] on. *)
Definition moved_worlds (n δ : nat) (p : heap) (s0 : Settings)
    (w1 w2 : World) : Prop :=
  settings w1 = s0 ∧ settings w2 = s0 ∧
  same_below n p (objects w1) ∧ same_below n p (objects w2) ∧
  moved n δ (objects w1) (objects w2) ∧ closed_above n (objects w1).

(** From worlds with the same configuration, [m2] does what [m1] does: when
    [m1] returns, so does [m2], what they return is related by [R], and the
    worlds they leave have the same configuration again; when [m1] ends in an
    exception, so does [m2], unless [m1] ran out of stack. *)
Definition follows (n δ : nat) (p : heap) (s0 : Settings) {A} (m1 m2 : M A)
    (R : A → A → Prop) : Prop :=
  ∀ w1 w2, moved_worlds n δ p s0 w1 w2 →
    match outcome (m1 w1) with
    | Ok a1 =>
        ∃ a2, outcome (m2 w2) = Ok a2 ∧ R a1 a2 ∧
              moved_worlds n δ p s0 (final (m1 w1)) (final (m2 w2))
    | Raise e => e = RecursionError ∨ outcome (m2 w2) = Raise e
    end.

(** ** The protocol state store *)

Inductive StoreUse :=
| Opened
| Used
| Synced.

(** What was done with the shelf: opened, handed to pysaml2 in a call, or
    synced. *)
Definition store_uses (t : list Event) : list StoreUse :=
  omap (λ e,
    match e with
    | EShelveOpen _ => Some Opened
    | EShelveSync => Some Synced
    | ELib c _ =>
        match c with
        | Saml2Client_new _ true _ | Global_logout _ _
        | Logout_response _ _ _ | Logout_request _ _ _ => Some Used
        | _ => None
        end
    | _ => None
    end) t.

(** What the file held as the shelf was closed, each time one was. *)
Definition store_closes (t : list Event) : list (gmap string string) :=
  omap (λ e, match e with EShelveClose written => Some written | _ => None end)
    t.

(** What was written through the shelf is in the file. *)
Definition flushed (w : World) : Prop :=
  ∀ view, shelf w = Some view → state_file w = view.

(** No shelf is left open. *)
Definition released (w : World) : Prop := shelf w = None.

(** The discipline asked of a logout flow: the store is flushed when a
    response is returned, and released however the flow ends. *)
Definition store_discipline (r : Run HttpResponse) : Prop :=
  (∀ response, outcome r = Ok response → flushed (final r)) ∧
  released (final r).

(** The three outcomes the design gives a logout request of the identity
    provider: teardown and a redirect, a redirect without teardown, or the
    error body. *)
Definition three_outcomes (r : Run HttpResponse) : Prop :=
  (teardowns (trace r) = 1 ∧ ∃ url, outcome r = Ok (ResponseRedirect url)) ∨
  (teardowns (trace r) = 0 ∧ ∃ url, outcome r = Ok (ResponseRedirect url)) ∨
  (teardowns (trace r) = 0 ∧
   outcome r = Ok (Response "Error during logout" None)).

(** ** More of what a trace shows *)

(** The identity providers [conf.single_sign_on_service] was asked for, with
    the locations it answered. *)
Definition sso_lookups (t : list Event) : list (string * string) :=
  omap (λ e,
    match e with
    | ELib c a =>
        match c in LibCall A return A → option (string * string) with
        | Single_sign_on_service _ idp => λ a, Some (idp, a)
        | _ => λ _, None
        end a
    | _ => None
    end) t.

(** The configurations [conf.load] was handed. *)
Definition loads (t : list Event) : list pyval :=
  omap (λ e,
    match e with
    | ELib c _ =>
        match c with
        | SPConfig_load _ cnf => Some cnf
        | _ => None
        end
    | _ => None
    end) t.

(** The keys [conf[key]] was asked for, with the answers. *)
Definition config_items (t : list Event) : list (string * option pyval) :=
  omap (λ e,
    match e with
    | ELib c a =>
        match c in LibCall A return A → option (string * option pyval) with
        | SPConfig_getitem _ key => λ a, Some (key, a)
        | _ => λ _, None
        end a
    | _ => None
    end) t.

(** The clients built, each with the caches it was built on: state cache,
    identity cache. *)
Definition clients_built (t : list Event) : list (bool * bool) :=
  omap (λ e,
    match e with
    | ELib c _ =>
        match c with
        | Saml2Client_new _ state_cache identity_cache =>
            Some (state_cache, identity_cache)
        | _ => None
        end
    | _ => None
    end) t.

(** What [client.response] was handed: the posted fields, the entity
    identifier and the outstanding queries. *)
Definition verification_requests (t : list Event)
    : list (gmap string string * pyval * gmap string string) :=
  omap (λ e,
    match e with
    | ELib c _ =>
        match c with
        | Client_response _ post entityid outstanding_queries =>
            Some (post, entityid, outstanding_queries)
        | _ => None
        end
    | _ => None
    end) t.

(** What [client.global_logout] answered. *)
Definition global_logout_answers (t : list Event) : list LogoutResult :=
  omap (λ e,
    match e with
    | ELib c a =>
        match c in LibCall A return A → option LogoutResult with
        | Global_logout _ _ => λ a, Some a
        | _ => λ _, None
        end a
    | _ => None
    end) t.

(** What [client.logout_response] was handed: the message and the binding. *)
Definition logout_response_requests (t : list Event)
    : list (string * string) :=
  omap (λ e,
    match e with
    | ELib c _ =>
        match c with
        | Logout_response _ xmlstr binding => Some (xmlstr, binding)
        | _ => None
        end
    | _ => None
    end) t.

(** What [client.logout_request] was handed: the query and the subject. *)
Definition logout_request_requests (t : list Event)
    : list (gmap string string * string) :=
  omap (λ e,
    match e with
    | ELib c _ =>
        match c with
        | Logout_request _ get subject_id => Some (get, subject_id)
        | _ => None
        end
    | _ => None
    end) t.

(** What [conf.get] answered. *)
Definition config_lookup_answers (t : list Event) : list pyval :=
  omap (λ e,
    match e with
    | ELib c a =>
        match c in LibCall A return A → option pyval with
        | SPConfig_get _ _ _ => λ a, Some a
        | _ => λ _, None
        end a
    | _ => None
    end) t.

(** The entity descriptors built: the validity asked for and the
    descriptor. *)
Definition entity_descriptors (t : list Event) : list (pyval * pyval) :=
  omap (λ e,
    match e with
    | ELib c a =>
        match c in LibCall A return A → option (pyval * pyval) with
        | Entity_descriptor _ valid_for => λ a, Some (valid_for, a)
        | _ => λ _, None
        end a
    | _ => None
    end) t.

(** What [entities_descriptor] was handed, the security context apart. *)
Definition entities_descriptor_requests (t : list Event)
    : list (list pyval * pyval * string * string * bool) :=
  omap (λ e,
    match e with
    | ELib c _ =>
        match c with
        | Entities_descriptor eds valid_for name ed_id sign _ =>
            Some (eds, valid_for, name, ed_id, sign)
        | _ => None
        end
    | _ => None
    end) t.

(** What [str(output)] gave. *)
Definition printed (t : list Event) : list string :=
  omap (λ e,
    match e with
    | ELib c a =>
        match c in LibCall A return A → option string with
        | Str _ => λ a, Some a
        | _ => λ _, None
        end a
    | _ => None
    end) t.

(** ** More scripts for the stand-in *)
Module Cases.

Import Scripted.

Definition with_authn (answer : string * list string) : Script :=
  {| wayf_needed := wayf_needed script; idps := idps script;
     sso_location := sso_location script; entityid := entityid script;
     authn := answer; verified := verified script;
     logout_sent := logout_sent script;
     logout_answered := logout_answered script;
     logout_asked := logout_asked script; xml := xml script |}.

Definition with_entityid (answer : option string) : Script :=
  {| wayf_needed := wayf_needed script; idps := idps script;
     sso_location := sso_location script; entityid := answer;
     authn := authn script; verified := verified script;
     logout_sent := logout_sent script;
     logout_answered := logout_answered script;
     logout_asked := logout_asked script; xml := xml script |}.

Definition with_verified (answer : option AuthnResponse) : Script :=
  {| wayf_needed := wayf_needed script; idps := idps script;
     sso_location := sso_location script; entityid := entityid script;
     authn := authn script; verified := answer;
     logout_sent := logout_sent script;
     logout_answered := logout_answered script;
     logout_asked := logout_asked script; xml := xml script |}.

Definition with_logout_sent (answer : LogoutResult) : Script :=
  {| wayf_needed := wayf_needed script; idps := idps script;
     sso_location := sso_location script; entityid := entityid script;
     authn := authn script; verified := verified script;
     logout_sent := answer;
     logout_answered := logout_answered script;
     logout_asked := logout_asked script; xml := xml script |}.

Definition with_logout_asked
    (answer : option (list (string * string)) * bool) : Script :=
  {| wayf_needed := wayf_needed script; idps := idps script;
     sso_location := sso_location script; entityid := entityid script;
     authn := authn script; verified := verified script;
     logout_sent := logout_sent script;
     logout_answered := logout_answered script;
     logout_asked := answer; xml := xml script |}.

(** The library of a script, with no item under [key] in the
    configuration. *)
Definition lib_without (key : string) (s : Script) (A : Type)
    (c : LibCall A) (v : LibView) : A * LibView :=
  match c in LibCall A return A * LibView → A * LibView with
  | SPConfig_getitem _ k => λ r, if bool_decide (k = key) then (None, v) else r
  | _ => λ r, r
  end (lib s A c v).

(** A response without a name identifier. *)
Definition nameless : AuthnResponse :=
  {| session_id := "id-1";
     session_info := {["issuer" := "https://idp.example/metadata"]} |}.

(** A backend that takes everybody for carol. *)
Definition carol (session_info : gmap string string) : option string :=
  Some "carol".

(** A visitor who was sent to the identity provider and has not come back. *)
Definition awaiting : World :=
  {| settings := the_settings; objects := config_objects;
     session := {| items := ∅; outstanding := {["id-1" := "/inbox"]};
                   identities := ∅; user := None |};
     state_file := ∅; shelf := None |}.

(** The session of bob, who is logged in locally, holds an item and waits
    for an answer of the identity provider. *)
Definition bob_awaiting : World :=
  {| settings := the_settings; objects := config_objects;
     session := {| items := {["cart" := "3 items"]};
                   outstanding := {["id-1" := "/inbox"; "id-9" := "/orders"]};
                   identities := ∅; user := Some "bob" |};
     state_file := ∅; shelf := None |}.

(** Later in the life of the process: alice is logged in, the state file
    has an entry, and the store holds what earlier requests left behind. *)
Definition busy : World :=
  {| settings := the_settings;
     objects := config_objects ++
                [OInst "SPConfig" [("cnf", VRef 5)];
                 ODict [("entityid", VStr "https://sp.example/metadata")];
                 OList [VRef 0; VStr "left behind"]];
     session := {| items := {["SAML_SUBJECT_ID" := "alice@idp.example"]};
                   outstanding := {["id-7" := "/orders"]};
                   identities := {["id-1" := "seen"]};
                   user := Some "alice" |};
     state_file := {["alice@idp.example" := "logout sent"]};
     shelf := None |}.

End Cases.

(** * Proofs *)

(** ** Deep copies *)

Lemma zip_nil_r {A B} (l : list A) : zip l ([] : list B) = [].
Proof. by destruct l. Qed.

Lemma vals_blank o : vals (blank o) = [].
Proof. destruct o; simpl; by rewrite ?zip_nil_r. Qed.

Lemma Forall_snd_zip {A B} (P : B → Prop) (ks : list A) (vs : list B) :
  Forall P vs → Forall P (zip ks vs).*2.
Proof.
  intros Hvs. revert ks.
  induction Hvs as [|v vs Hv _ IH]; intros [|k ks]; simpl; auto.
Qed.

Lemma Forall_vals_with_vals (P : pyval → Prop) o vs :
  Forall P vs → Forall P (vals (with_vals o vs)).
Proof. destruct o; simpl; auto using Forall_snd_zip. Qed.

Lemma above_le w w' v : w' ≤ w → above w v → above w' v.
Proof. destruct v; simpl; lia. Qed.

Lemma closed_above_app w h o :
  closed_above w h → Forall (above w) (vals o) → closed_above w (h ++ [o]).
Proof.
  intros Hc Ho l o' Hl Hlook.
  destruct (decide (l < length h)) as [Hlt|Hge].
  - rewrite lookup_app_l in Hlook by done. eauto.
  - rewrite lookup_app_r in Hlook by lia.
    destruct (l - length h) as [|k]; simpl in Hlook; [|done].
    by simplify_eq.
Qed.

Lemma closed_above_insert w h l o :
  closed_above w h → Forall (above w) (vals o) → closed_above w (<[l := o]> h).
Proof.
  intros Hc Ho l' o' Hl Hlook.
  destruct (decide (l = l')) as [->|Hne].
  - destruct (decide (l' < length h)) as [Hlt|Hge].
    + rewrite list_lookup_insert_eq in Hlook by done. by simplify_eq.
    + rewrite list_insert_ge in Hlook by lia. eauto.
  - rewrite list_lookup_insert_ne in Hlook by done. eauto.
Qed.

Lemma closed_above_length h : closed_above (length h) h.
Proof.
  intros l o Hl Hlook. apply lookup_lt_Some in Hlook. lia.
Qed.

Lemma same_below_refl w h : same_below w h h.
Proof. by intros l _. Qed.

Lemma same_below_trans w h1 h2 h3 :
  same_below w h1 h2 → same_below w h2 h3 → same_below w h1 h3.
Proof. intros H12 H23 l Hl. rewrite H23, H12; auto. Qed.

Lemma same_below_app w h o : w ≤ length h → same_below w h (h ++ [o]).
Proof. intros Hw l Hl. apply lookup_app_l. lia. Qed.

Lemma same_below_insert w h l o : w ≤ l → same_below w h (<[l := o]> h).
Proof. intros Hw l' Hl. apply list_lookup_insert_ne. lia. Qed.

Section copy_sound.
Variable w : loc.

Lemma copied_refl h m : copy_inv w h m → copied w h m h m.
Proof. intros Hinv. repeat split; auto using same_below_refl; apply Hinv. Qed.

Lemma copy_each_sound copier xs h m ys h' m' :
  copier_sound w copier →
  copy_inv w h m → copy_each copier xs h m = Some (ys, h', m') →
  Forall (above w) ys ∧ copied w h m h' m'.
Proof.
  intros Hc. revert h m ys h' m'.
  induction xs as [|x xs IH]; intros h m ys h' m' Hinv Hrun; simpl in Hrun.
  - simplify_eq. auto using copied_refl.
  - destruct (copier x h m) as [[[y h1] m1]|] eqn:Hx; [|done].
    destruct (copy_each copier xs h1 m1) as [[[ys' h2] m2]|] eqn:Hxs; [|done].
    simplify_eq.
    destruct (Hc _ _ _ _ _ _ Hinv Hx) as (Hy & Hinv1 & Hlen1 & Hsame1 & Hsub1).
    destruct (IH _ _ _ _ _ Hinv1 Hxs) as (Hys & Hinv2 & Hlen2 & Hsame2 & Hsub2).
    split; [by constructor|].
    split; [done|]. split; [lia|].
    split; [by eapply same_below_trans|by etrans].
Qed.

Lemma deepcopy_rec_sound depth : copier_sound w (deepcopy_rec depth).
Proof.
  induction depth as [|depth IH]; intros x h m y h' m' Hinv Hrun;
    simpl in Hrun; [done|].
  destruct x as [| | | |l];
    try (simplify_eq; split; [exact I|by apply copied_refl]).
  destruct (m !! l) as [l'|] eqn:Hmemo.
  { simplify_eq. split; [|by apply copied_refl].
    destruct Hinv as (_ & _ & Hm). exact (Hm _ _ Hmemo). }
  destruct (h !! l) as [o|] eqn:Hobj; [|done].
  destruct (copy_each _ _ _ _) as [[[ys h1] m1]|] eqn:Hcopy; [|done].
  simplify_eq.
  destruct Hinv as (Hw & Hcl & Hm).
  assert (Hinv0 : copy_inv w (h ++ [blank o]) (<[l := length h]> m)).
  { split; [rewrite length_app; lia|]. split.
    - apply closed_above_app; [done|]. by rewrite vals_blank.
    - by apply map_Forall_insert_2. }
  destruct (copy_each_sound _ _ _ _ _ _ _ IH Hinv0 Hcopy)
    as (Hys & (Hw1 & Hcl1 & Hm1) & Hlen1 & Hsame1 & Hsub1).
  rewrite length_app in Hlen1. simpl in Hlen1.
  split; [simpl; lia|].
  split; [|split; [|split]].
  - split; [by rewrite length_insert|]. split; [|done].
    apply closed_above_insert; [done|].
    by apply Forall_vals_with_vals.
  - rewrite length_insert. lia.
  - eapply same_below_trans; [by apply same_below_app|].
    eapply same_below_trans; [done|]. by apply same_below_insert.
  - etrans; [|done]. by apply insert_subseteq.
Qed.
End copy_sound.

Lemma pending_le m n : pending m n ≤ n.
Proof. induction n as [|n IH]; simpl; [lia|]. destruct (m !! n); lia. Qed.

Lemma pending_mono (m m' : memo) n : m ⊆ m' → pending m' n ≤ pending m n.
Proof.
  intros Hsub. induction n as [|n IH]; simpl; [lia|].
  destruct (m !! n) as [k|] eqn:Hn.
  - by rewrite (lookup_weaken _ _ _ _ Hn Hsub).
  - destruct (m' !! n); lia.
Qed.

Lemma pending_insert (m : memo) l l' n :
  l < n → m !! l = None → pending (<[l := l']> m) n < pending m n.
Proof.
  intros Hl Hnone. induction n as [|n IH]; simpl; [lia|].
  destruct (decide (l = n)) as [->|Hne].
  - rewrite lookup_insert_eq, Hnone.
    pose proof (pending_mono m (<[n := l']> m) n (insert_subseteq _ _ _ Hnone)).
    lia.
  - rewrite lookup_insert_ne by done.
    assert (pending (<[l := l']> m) n < pending m n) by (apply IH; lia).
    destruct (m !! n); lia.
Qed.

Section copy_total.
Variable w : loc.

Lemma old_bound_same h h' :
  same_below w h h' → old_bound w h → old_bound w h'.
Proof. intros Hsame Hold l o Hl Hlook. rewrite Hsame in Hlook by done. eauto. Qed.

Lemma copy_each_total k copier xs h m :
  copier_sound w copier → copier_total w k copier →
  copy_inv w h m → old_bound w h → Forall (bound w) xs → pending m w < k →
  is_Some (copy_each copier xs h m).
Proof.
  intros Hsound Htotal. revert h m.
  induction xs as [|x xs IH]; intros h m Hinv Hold Hxs Hk; simpl; [by eexists|].
  apply Forall_cons in Hxs as [Hx Hxs].
  destruct (Htotal x h m Hinv Hold Hx Hk) as [[[y h1] m1] Hrun]. rewrite Hrun.
  destruct (Hsound _ _ _ _ _ _ Hinv Hrun) as (_ & Hinv1 & _ & Hsame1 & Hsub1).
  destruct (IH h1 m1) as [[[ys h2] m2] Hrest]; auto.
  - by eapply old_bound_same.
  - pose proof (pending_mono _ _ w Hsub1). lia.
  - rewrite Hrest. by eexists.
Qed.

Lemma deepcopy_rec_total depth :
  copier_total w depth (deepcopy_rec depth).
Proof.
  induction depth as [|depth IH]; intros x h m Hinv Hold Hx Hk; [lia|].
  simpl. destruct x as [| | | |l]; try by eexists.
  destruct (m !! l) as [l'|] eqn:Hmemo; [by eexists|].
  simpl in Hx. pose proof Hinv as (Hw & Hcl & Hm).
  destruct (lookup_lt_is_Some_2 h l) as [o Hobj]; [lia|]. rewrite Hobj.
  destruct (copy_each_total depth (deepcopy_rec depth) (vals o)
              (h ++ [blank o]) (<[l := length h]> m)) as [[[ys h1] m1] Hrun].
  - apply deepcopy_rec_sound.
  - exact IH.
  - split; [rewrite length_app; lia|]. split.
    + apply closed_above_app; [done|]. by rewrite vals_blank.
    + by apply map_Forall_insert_2.
  - eapply old_bound_same; [|done]. by apply same_below_app.
  - eauto.
  - pose proof (pending_insert m l (length h) w Hx Hmemo). lia.
  - rewrite Hrun. by eexists.
Qed.
End copy_total.

(** [copy.deepcopy] of a value of a well-formed store returns. *)
Lemma deepcopy_total x h :
  heap_wf h → bound (length h) x → is_Some (deepcopy x h).
Proof.
  intros Hwf Hx. unfold deepcopy.
  destruct (deepcopy_rec_total (length h) (S (length h)) x h ∅)
    as [[[y h'] m'] Hrun].
  - split; [done|]. split; [apply closed_above_length|apply map_Forall_empty].
  - intros l o _ Hlook. exact (proj1 (Forall_lookup _ _) Hwf l o Hlook).
  - done.
  - pose proof (pending_le ∅ (length h)). lia.
  - rewrite Hrun. by eexists.
Qed.

(** The copy shares nothing with the objects below [w], when nothing from
    [w] on did: it and everything reachable from it lie at [w] or above, and
    the objects below [w] are as they were. *)
Lemma deepcopy_fresh w x h y h' :
  w ≤ length h → closed_above w h →
  deepcopy x h = Some (y, h') →
  above w y ∧ closed_above w h' ∧ length h ≤ length h' ∧ same_below w h h'.
Proof.
  unfold deepcopy. intros Hw Hcl Hrun.
  destruct (deepcopy_rec _ _ _ _) as [[[y0 h0] m0]|] eqn:Hrec; [|done].
  simplify_eq.
  assert (Hinv : copy_inv w h ∅).
  { split; [done|]. split; [done|apply map_Forall_empty]. }
  destruct (deepcopy_rec_sound w _ _ _ _ _ _ _ Hinv Hrec)
    as (Hy & (_ & Hcl' & _) & Hlen & Hsame & _).
  done.
Qed.

(** ** Every view leaves the objects below the copy alone *)

Section frame.

Variable lib : ∀ A, LibCall A → LibView → A * LibView.
Variable auth_authenticate : gmap string string → option string.
Variable logged_out_response : HttpRequest → HttpResponse.
Variable redirect_to_login : HttpRequest → HttpResponse.
Hypothesis lib_confined : confined lib.

(** The objects below [w0] are those of [h0], and the settings are [s0]. *)
Variable w0 : loc.
Variable h0 : heap.
Variable s0 : Settings.

Lemma keeps_ret {A} (a : A) (Q : A → Prop) : Q a → keeps w0 h0 s0 (mret a) Q.
Proof. intros Ha w Hw. split; [done|]. simpl. by intros ? [= <-]. Qed.

Lemma keeps_raise {A} e (Q : A → Prop) : keeps w0 h0 s0 (raise e) Q.
Proof. intros w Hw. split; [done|]. by simpl. Qed.

Lemma keeps_bind {A B} (m : M A) (f : A → M B) (Q : A → Prop) (R : B → Prop) :
  keeps w0 h0 s0 m Q → (∀ a, Q a → keeps w0 h0 s0 (f a) R) → keeps w0 h0 s0 (m ≫= f) R.
Proof.
  intros Hm Hf w Hw. destruct (Hm w Hw) as [Hg Hq].
  unfold mbind, M_bind. simpl.
  destruct (outcome (m w)) as [a|e] eqn:Hout; simpl; [|done].
  exact (Hf a (Hq a eq_refl) _ Hg).
Qed.

Lemma keeps_weaken {A} (m : M A) (Q R : A → Prop) :
  keeps w0 h0 s0 m Q → (∀ a, Q a → R a) → keeps w0 h0 s0 m R.
Proof. intros Hm HQR w Hw. destruct (Hm w Hw). naive_solver. Qed.

Lemma keeps_gets {A} (f : World → A) (Q : A → Prop) :
  (∀ w, guarded w0 h0 s0 w → Q (f w)) → keeps w0 h0 s0 (gets f) Q.
Proof. intros Hf w Hw. split; [done|]. simpl. intros ? [= <-]. auto. Qed.

Lemma keeps_modify (f : World → World) (Q : unit → Prop) :
  (∀ w, guarded w0 h0 s0 w → guarded w0 h0 s0 (f w)) → Q () → keeps w0 h0 s0 (modify f) Q.
Proof. intros Hf HQ w Hw. split; [by apply Hf|]. by intros []. Qed.

Lemma keeps_emit e (Q : unit → Prop) : Q () → keeps w0 h0 s0 (emit e) Q.
Proof. intros HQ w Hw. split; [done|]. by intros []. Qed.

Lemma guarded_set_session s w : guarded w0 h0 s0 w → guarded w0 h0 s0 (set_session s w).
Proof. done. Qed.

Lemma guarded_set_shelf sh w : guarded w0 h0 s0 w → guarded w0 h0 s0 (set_shelf sh w).
Proof. done. Qed.

Lemma guarded_set_state_file f w : guarded w0 h0 s0 w → guarded w0 h0 s0 (set_state_file f w).
Proof. done. Qed.

Lemma keeps_call {A} cs (c : LibCall A) :
  Forall (above w0) (call_refs c) →
  keeps w0 h0 s0 (call lib cs c) (λ a, Forall (above w0) (ret_refs c a)).
Proof.
  intros Hrefs w (Hlen & Hcl & Hsame & Hset).
  destruct (lib_confined A c (view cs w) w0 Hlen Hcl Hrefs)
    as (Hsame' & Hlen' & Hcl' & Hret).
  simpl in *. split; [|by intros ? [= <-]].
  assert (guarded w0 h0 s0 (set_objects (lv_heap (lib A c (view cs w)).2) w)).
  { split; [simpl; lia|]. split; [done|]. split; [|done].
    by eapply same_below_trans. }
  unfold merge. destruct cs; simpl; [done|done|]. by destruct (shelf w).
Qed.

Lemma keeps_deepcopy x :
  keeps w0 h0 s0 (copy_deepcopy x) (above w0).
Proof.
  intros w (Hlen & Hcl & Hsame & Hset). unfold copy_deepcopy.
  destruct (deepcopy x (objects w)) as [[y h]|] eqn:Hcopy; simpl; [|done].
  destruct (deepcopy_fresh w0 _ _ _ _ Hlen Hcl Hcopy)
    as (Hy & Hcl' & Hlen' & Hsame').
  split; [|by intros ? [= <-]].
  split; [simpl; lia|]. split; [done|]. split; [|done].
  by eapply same_below_trans.
Qed.

Lemma above_refs_1 w v : Forall (above w) [v] → above w v.
Proof. by inversion 1. Qed.

Ltac refs_above :=
  simpl;
  repeat match goal with
         | H : Forall (above _) [_] |- _ => apply above_refs_1 in H
         | H : Forall (above _) (match ?x with _ => _ end) |- _ => destruct x
         end;
  repeat (apply Forall_cons; split); try apply Forall_nil; simpl in *;
  try done.

Ltac keeps_step :=
  lazymatch goal with
  | |- keeps w0 h0 s0 (mret _) _ => by apply keeps_ret
  | |- keeps w0 h0 s0 (raise _) _ => apply keeps_raise
  | |- keeps w0 h0 s0 (call _ _ _ ≫= _) _ =>
      eapply keeps_bind; [apply keeps_call; refs_above|simpl; intros ? ?]
  | |- keeps w0 h0 s0 (gets _ ≫= _) _ =>
      eapply keeps_bind;
      [apply (keeps_gets _ (λ _, True)); done|simpl; intros ? _]
  | |- keeps w0 h0 s0 (modify _ ≫= _) _ =>
      eapply keeps_bind;
      [apply (keeps_modify _ (λ _, True)); [by intros|done]|simpl; intros ? _]
  | |- keeps w0 h0 s0 (modify _) _ => apply keeps_modify; [by intros|done]
  | |- keeps w0 h0 s0 (emit _ ≫= _) _ =>
      eapply keeps_bind;
      [apply (keeps_emit _ (λ _, True)); done|simpl; intros ? _]
  | |- keeps w0 h0 s0 (emit _) _ => by apply keeps_emit
  | |- keeps w0 h0 s0 (copy_deepcopy _ ≫= _) _ =>
      eapply keeps_bind; [apply keeps_deepcopy|simpl; intros ? ?]
  end.

Lemma keeps_load_conf : keeps w0 h0 s0 (_load_conf lib) (λ conf, w0 ≤ conf).
Proof.
  unfold _load_conf. repeat keeps_step. apply keeps_ret. by refs_above.
Qed.

(** A program that leaves the objects and the settings alone. *)
Lemma keeps_quiet {A} (m : M A) :
  (∀ w, objects (final (m w)) = objects w ∧
        settings (final (m w)) = settings w) →
  keeps w0 h0 s0 m (λ _, True).
Proof.
  intros Hm w (Hlen & Hcl & Hsame & Hset). destruct (Hm w) as [Ho Hs].
  split; [|done]. unfold guarded. by rewrite Ho, Hs.
Qed.

Lemma keeps_assert b : keeps w0 h0 s0 (assert b) (λ _, True).
Proof. apply keeps_quiet. by destruct b. Qed.

Lemma keeps_getitem d key : keeps w0 h0 s0 (getitem d key) (λ _, True).
Proof. apply keeps_quiet. unfold getitem. by destruct (d !! key). Qed.

Lemma keeps_index {A} (xs : list A) i : keeps w0 h0 s0 (index xs i) (λ _, True).
Proof. apply keeps_quiet. unfold index. by destruct (xs !! i). Qed.

Lemma keeps_first_header r : keeps w0 h0 s0 (first_header r) (λ _, True).
Proof.
  apply keeps_quiet. unfold first_header, index.
  destruct r as [headers|]; [|done]. by destruct (headers !! 0).
Qed.

Lemma keeps_session_getitem key : keeps w0 h0 s0 (session_getitem key) (λ _, True).
Proof.
  apply keeps_quiet. intros w. unfold session_getitem, getitem. simpl.
  by destruct (items (session w) !! key).
Qed.

Lemma keeps_session_setitem key value :
  keeps w0 h0 s0 (session_setitem key value) (λ _, True).
Proof. by apply keeps_quiet. Qed.

Lemma keeps_oq_set sid dest : keeps w0 h0 s0 (oq_set sid dest) (λ _, True).
Proof.
  apply keeps_quiet. intros w. unfold oq_set.
  by destruct (outstanding (session w) !! sid).
Qed.

Lemma keeps_oq_outstanding_queries : keeps w0 h0 s0 oq_outstanding_queries (λ _, True).
Proof. by apply keeps_quiet. Qed.

Lemma keeps_oq_delete sid : keeps w0 h0 s0 (oq_delete sid) (λ _, True).
Proof. by apply keeps_quiet. Qed.

Lemma keeps_shelve_open filename : keeps w0 h0 s0 (shelve_open filename) (λ _, True).
Proof. by apply keeps_quiet. Qed.

Lemma keeps_shelve_sync : keeps w0 h0 s0 shelve_sync (λ _, True).
Proof. apply keeps_quiet. intros w. simpl. by destruct (shelf w). Qed.

Lemma keeps_shelf_del : keeps w0 h0 s0 shelf_del (λ _, True).
Proof. apply keeps_quiet. intros w. unfold shelf_del. by destruct (shelf w). Qed.

Lemma keeps_auth_login u : keeps w0 h0 s0 (auth_login u) (λ _, True).
Proof. by apply keeps_quiet. Qed.

Lemma keeps_auth_logout : keeps w0 h0 s0 auth_logout (λ _, True).
Proof. by apply keeps_quiet. Qed.

Lemma keeps_django_logout request :
  keeps w0 h0 s0 (django_logout logged_out_response request) (λ _, True).
Proof. by apply keeps_quiet. Qed.

Lemma keeps_conf_getitem conf key :
  w0 ≤ conf → keeps w0 h0 s0 (conf_getitem lib conf key) (above w0).
Proof.
  intros Hconf. unfold conf_getitem. keeps_step.
  destruct a as [v|]; [|apply keeps_raise]. apply keeps_ret. by refs_above.
Qed.

Create HintDb keeps.
Local Hint Resolve keeps_assert keeps_getitem keeps_index keeps_first_header
  keeps_session_getitem keeps_session_setitem keeps_oq_set
  keeps_oq_outstanding_queries keeps_oq_delete keeps_shelve_open
  keeps_shelve_sync keeps_shelf_del keeps_auth_login keeps_auth_logout
  keeps_django_logout
  keeps_conf_getitem keeps_load_conf : keeps.

Ltac keeps_views :=
  repeat first
    [ keeps_step
    | eapply keeps_bind; [solve [eauto with keeps]|simpl; intros ? ?]
    | eapply keeps_weaken; [solve [eauto with keeps]|done]
    | lazymatch goal with
      | |- keeps w0 h0 s0 (mret _ ≫= _) _ =>
          eapply (keeps_bind _ _ (λ _, True));
          [by apply keeps_ret|simpl; intros ? _]
      | |- keeps w0 h0 s0 ((_ ≫= _) ≫= _) _ =>
          eapply (keeps_bind _ _ (λ _, True)); [|simpl; intros ? _]
      end
    | match goal with
      | |- keeps w0 h0 s0 (match ?x with _ => _ end) _ => destruct x
      | |- keeps w0 h0 s0 (match ?x with _ => _ end ≫= _) _ => destruct x
      | |- keeps w0 h0 s0 (if ?x then _ else _) _ => destruct x
      end ].

Lemma keeps_login request :
  keeps w0 h0 s0 (login lib request) (λ _, True).
Proof. unfold login. keeps_views. Qed.

Lemma keeps_assertion_consumer_service request :
  keeps w0 h0 s0 (assertion_consumer_service lib auth_authenticate request) (λ _, True).
Proof. unfold assertion_consumer_service. keeps_views. Qed.

Lemma keeps_logout request :
  keeps w0 h0 s0 (logout lib redirect_to_login request) (λ _, True).
Proof.
  unfold logout, login_required, logout_view, with_state_local. keeps_views.
Qed.

Lemma keeps_logout_service request :
  keeps w0 h0 s0 (logout_service lib logged_out_response request) (λ _, True).
Proof. unfold logout_service, with_state_local. keeps_views. Qed.

Lemma keeps_metadata request :
  keeps w0 h0 s0 (metadata lib request) (λ _, True).
Proof. unfold metadata. keeps_views. Qed.

Lemma keeps_run_view v request :
  keeps w0 h0 s0 (run_view lib auth_authenticate logged_out_response redirect_to_login
           v request) (λ _, True).
Proof.
  destruct v; simpl;
    auto using keeps_login, keeps_assertion_consumer_service, keeps_logout,
      keeps_logout_service, keeps_metadata.
Qed.

End frame.

(** ** The scripted stand-in is confined *)

Lemma touch_confined w v h :
  closed_above w h → above w v →
  same_below w h (Scripted.touch v h) ∧
  length (Scripted.touch v h) = length h ∧
  closed_above w (Scripted.touch v h).
Proof.
  intros Hcl Hv. unfold Scripted.touch.
  destruct v as [| | | |l]; try (split; [apply same_below_refl|done]).
  destruct (h !! l) as [[items| |]|] eqn:Hl;
    try (split; [apply same_below_refl|done]).
  simpl in Hv. split; [by apply same_below_insert|].
  split; [by rewrite length_insert|].
  apply closed_above_insert; [done|]. simpl.
  apply Forall_cons. split; [done|]. exact (Hcl l _ Hv Hl).
Qed.

Lemma foldr_touch_confined w vs h :
  closed_above w h → Forall (above w) vs →
  same_below w h (foldr Scripted.touch h vs) ∧
  length (foldr Scripted.touch h vs) = length h ∧
  closed_above w (foldr Scripted.touch h vs).
Proof.
  intros Hcl. induction 1 as [|v vs Hv _ IH]; simpl.
  - split; [apply same_below_refl|done].
  - destruct IH as (Hsame & Hlen & Hcl').
    destruct (touch_confined w v _ Hcl' Hv) as (Hsame' & Hlen' & Hcl'').
    split; [by eapply same_below_trans|]. split; [congruence|done].
Qed.

Lemma load_confined w conf cnf h :
  closed_above w h → w ≤ conf → above w cnf →
  same_below w h (Scripted.load conf cnf h) ∧
  length (Scripted.load conf cnf h) = length h ∧
  closed_above w (Scripted.load conf cnf h).
Proof.
  intros Hcl Hconf Hcnf. unfold Scripted.load.
  set (inner := match cnf with VRef l => _ | _ => _ end).
  assert (Hinner : Forall (above w) inner).
  { subst inner. destruct cnf as [| | | |l]; try done.
    destruct (h !! l) as [o|] eqn:Hl; [|done]. exact (Hcl l o Hcnf Hl). }
  destruct (touch_confined w cnf h Hcl Hcnf) as (Hsame1 & Hlen1 & Hcl1).
  destruct (foldr_touch_confined w inner _ Hcl1 Hinner)
    as (Hsame2 & Hlen2 & Hcl2).
  split; [|split].
  - eapply same_below_trans; [done|]. eapply same_below_trans; [done|].
    by apply same_below_insert.
  - rewrite length_insert. congruence.
  - apply closed_above_insert; [done|]. simpl. by repeat constructor.
Qed.

Lemma scripted_confined s : confined (Scripted.lib s).
Proof.
  intros A c v w Hlen Hcl Hrefs.
  assert (Hid : ∀ refs : list pyval, Forall (above w) refs →
            same_below w (lv_heap v) (lv_heap v) ∧
            length (lv_heap v) ≤ length (lv_heap v) ∧
            closed_above w (lv_heap v) ∧ Forall (above w) refs).
  { intros refs Href. split; [apply same_below_refl|done]. }
  assert (Halloc : ∀ o, Forall (above w) (vals o) →
            same_below w (lv_heap v) (lv_heap v ++ [o]) ∧
            length (lv_heap v) ≤ length (lv_heap v ++ [o]) ∧
            closed_above w (lv_heap v ++ [o]) ∧
            Forall (above w) [VRef (length (lv_heap v))]).
  { intros o Ho. split; [by apply same_below_app|].
    split; [rewrite length_app; lia|].
    split; [by apply closed_above_app|]. by repeat constructor. }
  destruct c; simpl in *.
  - by apply Halloc.
  - apply Forall_cons in Hrefs as [Hconf Hrefs].
    apply Forall_cons in Hrefs as [Hcnf _].
    destruct (load_confined w conf cnf _ Hcl Hconf Hcnf) as (? & ? & ?).
    split; [done|]. split; [lia|done].
  - by apply Hid.
  - by apply Hid.
  - by apply Hid.
  - apply Hid. case_bool_decide; [|by repeat constructor].
    destruct (Scripted.entityid s); by repeat constructor.
  - apply Hid. apply Forall_cons in Hrefs as [_ Hrefs].
    by apply Forall_cons in Hrefs as [? _]; repeat constructor.
  - apply Hid. by repeat constructor.
  - apply Halloc. simpl. apply Forall_cons in Hrefs as [? _].
    by repeat constructor.
  - by apply Hid.
  - destruct (Scripted.verified s); by apply Hid.
  - by apply Hid.
  - by apply Hid.
  - by apply Hid.
  - apply Hid. by repeat constructor.
  - apply Hid. by repeat constructor.
  - apply Hid. by repeat constructor.
  - destruct output; by apply Hid.
Qed.

(** ** Rules for running a view step by step *)

Lemma wp_ret {A} (a : A) w Φ : Φ (Ok a) w [] → wp (mret a) w Φ.
Proof. done. Qed.

Lemma wp_raise {A} e w (Φ : result A → _) : Φ (Raise e) w [] → wp (raise e) w Φ.
Proof. done. Qed.

Lemma wp_bind {A B} (m : M A) (f : A → M B) w Φ :
  wp m w (λ o w1 t1,
    match o with
    | Ok a => wp (f a) w1 (λ o2 w2 t2, Φ o2 w2 (t1 ++ t2))
    | Raise e => Φ (Raise e) w1 t1
    end) →
  wp (m ≫= f) w Φ.
Proof.
  unfold wp, mbind, M_bind. simpl. by destruct (outcome (m w)).
Qed.

Lemma wp_gets {A} (f : World → A) w Φ : Φ (Ok (f w)) w [] → wp (gets f) w Φ.
Proof. done. Qed.

Lemma wp_modify f w Φ : Φ (Ok ()) (f w) [] → wp (modify f) w Φ.
Proof. done. Qed.

Lemma wp_emit e w Φ : Φ (Ok ()) w [e] → wp (emit e) w Φ.
Proof. done. Qed.

Lemma wp_shelf_del w Φ :
  (∀ view, shelf w = Some view →
     Φ (Ok ()) (set_shelf None (set_state_file view w)) [EShelveClose view]) →
  (shelf w = None → Φ (Ok ()) w []) →
  wp shelf_del w Φ.
Proof.
  intros Hopen Hnone. unfold wp, shelf_del.
  destruct (shelf w) as [view|] eqn:Hshelf; simpl; eauto.
Qed.

Lemma wp_oq_set sid dest w Φ :
  (outstanding (session w) !! sid = None →
     Φ (Ok ())
       (set_session
          (set_outstanding (<[sid := dest]> (outstanding (session w)))
             (session w)) w) []) →
  (∀ x, outstanding (session w) !! sid = Some x →
     Φ (Raise (DuplicateRequestId sid)) w []) →
  wp (oq_set sid dest) w Φ.
Proof.
  intros Hnew Hdup. unfold wp, oq_set.
  destruct (outstanding (session w) !! sid) eqn:Hsid; simpl; eauto.
Qed.

Section stepping.

Variable lib : ∀ A, LibCall A → LibView → A * LibView.

(** Whatever the library answers and leaves behind. *)
Lemma wp_call {A} cs (c : LibCall A) w Φ :
  (∀ a v, Φ (Ok a) (merge cs v w) [ELib c a]) → wp (call lib cs c) w Φ.
Proof. intros H. apply H. Qed.

Lemma wp_deepcopy x w Φ :
  (∀ y h, deepcopy x (objects w) = Some (y, h) →
     Φ (Ok y) (set_objects h w) []) →
  (deepcopy x (objects w) = None → Φ (Raise RecursionError) w []) →
  wp (copy_deepcopy x) w Φ.
Proof.
  intros Hsome Hnone. unfold wp, copy_deepcopy.
  destruct (deepcopy x (objects w)) as [[y h]|]; simpl; eauto.
Qed.

(** [_load_conf] creates a configuration object and loads a copy of the
    settings into it; the objects apart, it leaves the world as it is. *)
Lemma wp_load_conf w Φ :
  (∀ conf cnf h,
     Φ (Ok conf) (set_objects h w)
       [ELib SPConfig_new conf; ELib (SPConfig_load conf cnf) ()]) →
  (∀ conf h,
     Φ (Raise RecursionError) (set_objects h w) [ELib SPConfig_new conf]) →
  wp (_load_conf lib) w Φ.
Proof.
  intros Hok Hfail. unfold _load_conf.
  apply wp_bind, wp_call. intros conf v; simpl.
  apply wp_bind, wp_gets; simpl.
  apply wp_bind, wp_deepcopy; simpl.
  - intros cnf h _. apply wp_bind, wp_call. intros [] v'; simpl.
    apply wp_ret. apply Hok.
  - intros _. apply Hfail.
Qed.

End stepping.

Ltac wp_step :=
  lazymatch goal with
  | |- wp (_ ≫= _) _ _ => apply wp_bind
  | |- wp (mret _) _ _ => apply wp_ret
  | |- wp (raise _) _ _ => apply wp_raise
  | |- wp (gets _) _ _ => apply wp_gets
  | |- wp (modify _) _ _ => apply wp_modify
  | |- wp (emit _) _ _ => apply wp_emit
  | |- wp (call _ _ _) _ _ => apply wp_call; intros ? ?
  | |- wp (_load_conf _) _ _ => apply wp_load_conf; [intros ? ? ?|intros ? ?]
  | |- wp (oq_set _ _) _ _ => apply wp_oq_set; [intros ?|intros ? ?]
  | |- wp (assert ?b) _ _ => unfold assert; destruct b eqn:?
  | |- wp (getitem ?d ?k) _ _ => unfold getitem; destruct (d !! k) eqn:?
  | |- wp (index ?xs ?i) _ _ => unfold index; destruct (xs !! i) eqn:?
  | |- wp (first_header ?r) _ _ => unfold first_header; destruct r eqn:?
  | |- wp (conf_getitem _ _ _) _ _ => unfold conf_getitem
  | |- wp (session_getitem _) _ _ => unfold session_getitem
  | |- wp (session_setitem _ _) _ _ => unfold session_setitem
  | |- wp oq_outstanding_queries _ _ => unfold oq_outstanding_queries
  | |- wp (oq_delete _) _ _ => unfold oq_delete
  | |- wp (shelve_open _) _ _ => unfold shelve_open
  | |- wp shelve_sync _ _ => unfold shelve_sync
  | |- wp shelf_del _ _ => apply wp_shelf_del; [intros ? ?|intros ?]
  | |- wp (with_state_local _) _ _ => unfold with_state_local
  | |- wp (auth_login _) _ _ => unfold auth_login
  | |- wp auth_logout _ _ => unfold auth_logout
  | |- wp (django_logout _ _) _ _ => unfold django_logout
  | |- wp (match ?x with _ => _ end) _ _ => destruct x eqn:?
  | |- wp (let '(_, _) := ?x in _) _ _ => destruct x eqn:?
  end; cbn beta iota.

(** Turn a goal about the run of [m] from [w] into a [wp]. *)
Ltac wp_start m w :=
  let r := fresh "r" in
  set (r := m w);
  pattern (outcome r), (final r), (trace r);
  lazymatch goal with
  | |- ?Φ _ _ _ => change (wp m w Φ)
  end;
  clear r.

(** ** In a well-formed world the configuration loads *)

Lemma bound_le n n' v : n ≤ n' → bound n v → bound n' v.
Proof. destruct v; simpl; lia. Qed.

Lemma heap_wf_app h o :
  heap_wf h → Forall (bound (S (length h))) (vals o) → heap_wf (h ++ [o]).
Proof.
  unfold heap_wf. intros Hwf Ho. rewrite length_app. simpl.
  replace (length h + 1) with (S (length h)) by lia.
  apply Forall_app. split; [|by repeat constructor].
  eapply Forall_impl; [done|]. simpl. intros o' Ho'.
  eapply Forall_impl; [done|]. intros v. apply bound_le. lia.
Qed.

Lemma heap_wf_insert h l o :
  heap_wf h → Forall (bound (length h)) (vals o) → heap_wf (<[l := o]> h).
Proof.
  unfold heap_wf. intros Hwf Ho. rewrite length_insert.
  destruct (decide (l < length h)) as [Hl|Hl].
  - by apply Forall_insert.
  - by rewrite list_insert_ge by lia.
Qed.

Section loading.

Variable lib : ∀ A, LibCall A → LibView → A * LibView.
Hypothesis lib_safe : memory_safe lib.

(** In a well-formed world [_load_conf] returns. *)
Lemma wp_load_conf_wf w Φ :
  world_wf w →
  (∀ conf cnf h,
     Φ (Ok conf) (set_objects h w)
       [ELib SPConfig_new conf; ELib (SPConfig_load conf cnf) ()]) →
  wp (_load_conf lib) w Φ.
Proof.
  intros [Hwf Hcfg] Hok. unfold _load_conf.
  apply wp_bind. unfold wp at 1. simpl.
  destruct (lib_safe _ SPConfig_new (view NoCaches w) Hwf) as [Hwf1 Hlen1];
    [by constructor|].
  set (r := lib _ SPConfig_new (view NoCaches w)) in *.
  apply wp_bind, wp_gets; simpl.
  apply wp_bind, wp_deepcopy; simpl.
  - intros cnf h _. apply wp_bind, wp_call. intros [] v'; simpl.
    apply wp_ret. apply Hok.
  - intros Hnone.
    destruct (deepcopy_total (SAML_CONFIG (settings w)) (lv_heap r.2))
      as [? Hsome]; [done| |congruence].
    eapply bound_le; [|done]. done.
Qed.

End loading.

Ltac wp_step_wf Hsafe Hwf :=
  lazymatch goal with
  | |- wp (_load_conf _) _ _ =>
      apply (wp_load_conf_wf _ Hsafe); [exact Hwf|intros ? ? ?]; cbn beta iota
  | _ => wp_step
  end.

(** ** The scripted stand-in is memory safe *)

Lemma touch_wf v h : heap_wf h → heap_wf (Scripted.touch v h).
Proof.
  intros Hwf. unfold Scripted.touch.
  destruct v as [| | | |l]; try done.
  destruct (h !! l) as [[items| |]|] eqn:Hl; try done.
  apply heap_wf_insert; [done|]. simpl. apply Forall_cons. split; [done|].
  exact (proj1 (Forall_lookup _ _) Hwf l _ Hl).
Qed.

Lemma touch_length v h : length (Scripted.touch v h) = length h.
Proof.
  unfold Scripted.touch. destruct v as [| | | |l]; try done.
  destruct (h !! l) as [[items| |]|]; try done. by rewrite length_insert.
Qed.

Lemma foldr_touch_wf vs h :
  heap_wf h →
  heap_wf (foldr Scripted.touch h vs) ∧
  length (foldr Scripted.touch h vs) = length h.
Proof.
  intros Hwf. induction vs as [|v vs [IHwf IHlen]]; simpl; [done|].
  split; [by apply touch_wf|]. by rewrite touch_length.
Qed.

Lemma scripted_memory_safe s : memory_safe (Scripted.lib s).
Proof.
  intros A c v Hwf Hrefs.
  assert (Halloc : ∀ o, Forall (bound (length (lv_heap v))) (vals o) →
            heap_wf (lv_heap v ++ [o]) ∧
            length (lv_heap v) ≤ length (lv_heap v ++ [o])).
  { intros o Ho. split; [|rewrite length_app; lia].
    apply heap_wf_app; [done|]. eapply Forall_impl; [done|].
    intros x. apply bound_le. lia. }
  destruct c; simpl in *; try done.
  - by apply Halloc.
  - apply Forall_cons in Hrefs as [Hconf Hrefs].
    apply Forall_cons in Hrefs as [Hcnf _].
    unfold Scripted.load.
    set (inner := match cnf with VRef l => _ | _ => _ end).
    destruct (foldr_touch_wf inner (Scripted.touch cnf (lv_heap v)))
      as [Hwf' Hlen']; [by apply touch_wf|].
    rewrite touch_length in Hlen'.
    split; [|rewrite length_insert; lia].
    apply heap_wf_insert; [done|]. simpl. rewrite Hlen'.
    by repeat constructor.
  - apply Halloc. simpl. apply Forall_cons in Hrefs as [? _].
    by repeat constructor.
  - by destruct (Scripted.verified s).
  - by destruct output.
Qed.

Lemma same_below_prefix (h h' : heap) :
  same_below (length h) h h' → length h ≤ length h' → h `prefix_of` h'.
Proof.
  intros Hsame Hlen. exists (drop (length h) h').
  rewrite <- (take_drop (length h) h') at 1. f_equal.
  apply list_eq. intros i.
  destruct (decide (i < length h)) as [Hi|Hi].
  - rewrite lookup_take_lt by done. by apply Hsame.
  - rewrite lookup_take_ge by lia. symmetry. apply lookup_ge_None. lia.
Qed.

(** ** The same copy at other addresses *)

Lemma shift_above n δ v : above n v → above (n + δ) (shift δ v).
Proof. destruct v; simpl; lia. Qed.

Lemma zip_shift {A} δ (ks : list A) ys :
  (λ kv, (kv.1, shift δ kv.2)) <$> zip ks ys = zip ks (shift δ <$> ys).
Proof.
  revert ys. induction ks as [|k ks IH]; intros [|y ys]; simpl; [done..|].
  by rewrite IH.
Qed.

Lemma snd_shift {A} δ (items : list (A * pyval)) :
  ((λ kv, (kv.1, shift δ kv.2)) <$> items).*2 = shift δ <$> items.*2.
Proof. induction items as [|[k v] items IH]; [done|]. csimpl. by f_equal. Qed.

Lemma vals_shift_obj δ o : vals (shift_obj δ o) = shift δ <$> vals o.
Proof. destruct o; simpl; by rewrite ?snd_shift. Qed.

Lemma shift_obj_with_vals δ o ys :
  shift_obj δ (with_vals o ys) = with_vals o (shift δ <$> ys).
Proof. destruct o; simpl; by rewrite ?zip_shift. Qed.

Lemma shift_obj_blank δ o : shift_obj δ (blank o) = blank o.
Proof. apply shift_obj_with_vals. Qed.

Lemma moved_length n δ h1 h2 : moved n δ h1 h2 → length h2 = length h1 + δ.
Proof.
  intros (Hn1 & Hn2 & Hdrop).
  apply (f_equal length) in Hdrop.
  rewrite length_fmap, !length_drop in Hdrop. lia.
Qed.

Lemma moved_lookup n δ h1 h2 l :
  moved n δ h1 h2 → n ≤ l → h2 !! (l + δ) = shift_obj δ <$> h1 !! l.
Proof.
  intros (Hn1 & Hn2 & Hdrop) Hl.
  replace (l + δ) with (n + δ + (l - n)) by lia.
  rewrite <- lookup_drop, Hdrop, list_lookup_fmap, lookup_drop.
  by replace (n + (l - n)) with l by lia.
Qed.

Lemma moved_app n δ h1 h2 o :
  moved n δ h1 h2 → moved n δ (h1 ++ [o]) (h2 ++ [shift_obj δ o]).
Proof.
  intros (Hn1 & Hn2 & Hdrop). split; [rewrite length_app; lia|].
  split; [rewrite length_app; lia|].
  rewrite !drop_app_le by done. by rewrite fmap_app, Hdrop.
Qed.

Lemma moved_insert n δ h1 h2 l o :
  moved n δ h1 h2 → n ≤ l →
  moved n δ (<[l := o]> h1) (<[l + δ := shift_obj δ o]> h2).
Proof.
  intros (Hn1 & Hn2 & Hdrop) Hl. split; [by rewrite length_insert|].
  split; [by rewrite length_insert|].
  rewrite !drop_insert_ge by lia. rewrite list_fmap_insert, Hdrop.
  by replace (l + δ - (n + δ)) with (l - n) by lia.
Qed.

Lemma moved_closed n δ h1 h2 :
  moved n δ h1 h2 → closed_above n h1 → closed_above (n + δ) h2.
Proof.
  intros Hmoved Hcl l o2 Hl Hlook.
  replace l with (l - δ + δ) in Hlook by lia.
  rewrite (moved_lookup n δ h1 h2) in Hlook by (done || lia).
  destruct (h1 !! (l - δ)) as [o1|] eqn:Ho1; simplify_eq/=.
  rewrite vals_shift_obj. apply Forall_fmap.
  eapply Forall_impl; [apply (Hcl (l - δ) o1); [lia|done]|].
  intros v. apply shift_above.
Qed.

Lemma copy_each_mono copier copier' xs h m r :
  (∀ x h m r, copier x h m = Some r → copier' x h m = Some r) →
  copy_each copier xs h m = Some r → copy_each copier' xs h m = Some r.
Proof.
  intros Hc. revert h m r.
  induction xs as [|x xs IH]; intros h m r Hrun; simpl in *; [done|].
  destruct (copier x h m) as [[[y h1] m1]|] eqn:Hx; [|done].
  rewrite (Hc _ _ _ _ Hx).
  destruct (copy_each copier xs h1 m1) as [[[ys h2] m2]|] eqn:Hxs; [|done].
  by rewrite (IH _ _ _ Hxs).
Qed.

(** A copy that a depth was enough for is the copy every greater depth
    gives. *)
Lemma deepcopy_rec_mono d d' x h m r :
  d ≤ d' → deepcopy_rec d x h m = Some r → deepcopy_rec d' x h m = Some r.
Proof.
  revert d' x h m r.
  induction d as [|d IH]; intros d' x h m r Hd Hrun; [done|].
  destruct d' as [|d']; [lia|]. simpl in *.
  destruct x as [| | | |l]; try done.
  destruct (m !! l); [done|]. destruct (h !! l) as [o|]; [|done].
  destruct (copy_each (deepcopy_rec d) _ _ _) as [[[ys h1] m1]|] eqn:Hcopy;
    [|done].
  assert (Hmono : ∀ x h m r, deepcopy_rec d x h m = Some r →
                             deepcopy_rec d' x h m = Some r).
  { intros. apply (IH d'); [lia|done]. }
  by rewrite (copy_each_mono _ _ _ _ _ _ Hmono Hcopy).
Qed.

Section moving.

Variables (n δ : nat) (p : heap).
Hypothesis p_closed : ∀ l o, p !! l = Some o → Forall (bound n) (vals o).

Lemma copy_each_moved copier xs h1 m1 h2 ys1 h1' m1' :
  copier_moved n δ p copier →
  Forall (bound n) xs →
  same_below n p h1 → same_below n p h2 → moved n δ h1 h2 →
  copy_each copier xs h1 m1 = Some (ys1, h1', m1') →
  ∃ h2',
    copy_each copier xs h2 ((λ l, l + δ) <$> m1)
    = Some (shift δ <$> ys1, h2', (λ l, l + δ) <$> m1') ∧
    same_below n p h1' ∧ same_below n p h2' ∧ moved n δ h1' h2'.
Proof.
  intros Hc Hxs. revert h1 m1 h2 ys1 h1' m1'.
  induction Hxs as [|x xs Hx Hxs IH];
    intros h1 m1 h2 ys1 h1' m1' Hp1 Hp2 Hmoved Hrun; simpl in *.
  - simplify_eq. by exists h2.
  - destruct (copier x h1 m1) as [[[y h1a] m1a]|] eqn:Hy; [|done].
    destruct (copy_each copier xs h1a m1a) as [[[ys h1b] m1b]|] eqn:Hys;
      [|done].
    simplify_eq.
    destruct (Hc _ _ _ _ _ _ _ Hx Hp1 Hp2 Hmoved Hy)
      as (h2a & -> & Hp1a & Hp2a & Hmoveda).
    destruct (IH _ _ _ _ _ _ Hp1a Hp2a Hmoveda Hys)
      as (h2b & -> & Hp1b & Hp2b & Hmovedb).
    by exists h2b.
Qed.

Lemma deepcopy_rec_moved d : copier_moved n δ p (deepcopy_rec d).
Proof.
  induction d as [|d IH];
    intros x h1 m1 h2 y1 h1' m1' Hx Hp1 Hp2 Hmoved Hrun; [done|].
  simpl in *.
  destruct x as [| | | |l]; try (simplify_eq; by exists h2).
  simpl in Hx. rewrite lookup_fmap.
  destruct (m1 !! l) as [l'|] eqn:Hmemo; simpl.
  { simplify_eq. by exists h2. }
  rewrite (Hp2 l Hx). rewrite (Hp1 l Hx) in Hrun.
  destruct (p !! l) as [o|] eqn:Ho; [|done].
  destruct (copy_each _ _ _ _) as [[[ys h1a] m1a]|] eqn:Hcopy; [|done].
  simplify_eq.
  pose proof Hmoved as (Hn1 & Hn2 & _).
  pose proof (moved_length _ _ _ _ Hmoved) as Hlen.
  assert (Hp1' : same_below n p (h1 ++ [blank o])).
  { eapply same_below_trans; [exact Hp1|]. apply same_below_app. lia. }
  assert (Hp2' : same_below n p (h2 ++ [blank o])).
  { eapply same_below_trans; [exact Hp2|]. apply same_below_app. lia. }
  assert (Hmoved' : moved n δ (h1 ++ [blank o]) (h2 ++ [blank o])).
  { pose proof (moved_app _ _ _ _ (blank o) Hmoved) as Happ.
    by rewrite shift_obj_blank in Happ. }
  destruct (copy_each_moved _ _ _ _ _ _ _ _ IH (p_closed _ _ Ho)
              Hp1' Hp2' Hmoved' Hcopy)
    as (h2a & Hcopy2 & Hp1a & Hp2a & Hmoveda).
  rewrite fmap_insert in Hcopy2. rewrite Hlen, Hcopy2.
  eexists. split; [done|].
  split; [|split].
  - eapply same_below_trans; [exact Hp1a|]. by apply same_below_insert.
  - eapply same_below_trans; [exact Hp2a|]. apply same_below_insert. lia.
  - rewrite <- shift_obj_with_vals. by apply moved_insert.
Qed.

(** [copy.deepcopy] of a value of the shared part makes the same copy in both
    stores, up to the addresses. *)
Lemma deepcopy_moved x h1 h2 y1 h1' :
  bound n x → same_below n p h1 → same_below n p h2 → moved n δ h1 h2 →
  deepcopy x h1 = Some (y1, h1') →
  ∃ h2',
    deepcopy x h2 = Some (shift δ y1, h2') ∧
    same_below n p h1' ∧ same_below n p h2' ∧ moved n δ h1' h2'.
Proof.
  unfold deepcopy. intros Hx Hp1 Hp2 Hmoved Hrun.
  destruct (deepcopy_rec _ x h1 ∅) as [[[y h] m]|] eqn:Hrec; [|done].
  simplify_eq.
  destruct (deepcopy_rec_moved _ _ _ _ _ _ _ _ Hx Hp1 Hp2 Hmoved Hrec)
    as (h2' & Hrec2 & Hp1' & Hp2' & Hmoved').
  rewrite fmap_empty in Hrec2.
  pose proof (moved_length _ _ _ _ Hmoved) as Hlen.
  rewrite (deepcopy_rec_mono (S (length h1)) (S (length h2)) _ _ _ _
             ltac:(lia) Hrec2).
  by exists h2'.
Qed.

End moving.

(** ** The metadata view depends on the configuration only *)

Lemma same_below_le w w' h h' : w' ≤ w → same_below w h h' → same_below w' h h'.
Proof. intros Hw Hsame l Hl. apply Hsame. lia. Qed.

Lemma call_refs_shift δ {A} (c : LibCall A) :
  call_refs (shift_call δ c) = shift δ <$> call_refs c.
Proof. destruct c; simpl; try done. by rewrite fmap_app. Qed.

Section following.

Variable lib : ∀ A, LibCall A → LibView → A * LibView.
Hypothesis lib_confined : confined lib.
Hypothesis lib_independent : position_independent lib.

Variables (n δ : nat) (p : heap) (s0 : Settings).
Hypothesis p_closed : ∀ l o, p !! l = Some o → Forall (bound n) (vals o).
Hypothesis cfg_bound : bound n (SAML_CONFIG s0).

Lemma follows_ret {A} (a1 a2 : A) (R : A → A → Prop) :
  R a1 a2 → follows n δ p s0 (mret a1) (mret a2) R.
Proof. intros HR w1 w2 Hw. simpl. eauto. Qed.

Lemma follows_raise {A} e (R : A → A → Prop) :
  follows n δ p s0 (raise e) (raise e) R.
Proof. intros w1 w2 Hw. simpl. by right. Qed.

Lemma follows_bind {A B} (m1 m2 : M A) (f1 f2 : A → M B)
    (R : A → A → Prop) (R' : B → B → Prop) :
  follows n δ p s0 m1 m2 R →
  (∀ a1 a2, R a1 a2 → follows n δ p s0 (f1 a1) (f2 a2) R') →
  follows n δ p s0 (m1 ≫= f1) (m2 ≫= f2) R'.
Proof.
  intros Hm Hf w1 w2 Hw. specialize (Hm w1 w2 Hw).
  unfold mbind, M_bind. simpl.
  destruct (outcome (m1 w1)) as [a1|e] eqn:Hout1; simpl.
  - destruct Hm as (a2 & Hout2 & HR & Hw'). rewrite Hout2. simpl.
    exact (Hf a1 a2 HR _ _ Hw').
  - destruct Hm as [->|Hout2]; [by left|]. right. by rewrite Hout2.
Qed.

Lemma follows_gets {A} (f : World → A) (R : A → A → Prop) :
  (∀ w1 w2, moved_worlds n δ p s0 w1 w2 → R (f w1) (f w2)) →
  follows n δ p s0 (gets f) (gets f) R.
Proof. intros Hf w1 w2 Hw. simpl. eauto. Qed.

Lemma follows_call {A} (c : LibCall A) :
  Forall (above n) (call_refs c) →
  follows n δ p s0 (call lib NoCaches c) (call lib NoCaches (shift_call δ c))
    (λ a1 a2, a2 = shift_ret δ c a1 ∧ Forall (above n) (ret_refs c a1)).
Proof.
  intros Hrefs w1 w2 (Hs1 & Hs2 & Hp1 & Hp2 & Hmoved & Hcl). simpl.
  pose proof Hmoved as (Hn1 & Hn2 & _).
  destruct (lib_independent n δ A c (view NoCaches w1) (view NoCaches w2))
    as [Hans Hmoved']; [done..|].
  destruct (lib_confined A c (view NoCaches w1) n Hn1 Hcl Hrefs)
    as (Hsame1 & _ & Hcl1 & Hret1).
  destruct (lib_confined A (shift_call δ c) (view NoCaches w2) (n + δ))
    as (Hsame2 & _); [done|by eapply moved_closed| |].
  { rewrite call_refs_shift. apply Forall_fmap.
    eapply Forall_impl; [done|]. intros v. apply shift_above. }
  eexists. split; [done|]. split; [done|].
  split; [done|]. split; [done|].
  split; [eapply same_below_trans; [exact Hp1|exact Hsame1]|].
  split; [|done].
  eapply same_below_trans; [exact Hp2|].
  eapply same_below_le; [|exact Hsame2]. lia.
Qed.

Lemma follows_deepcopy x :
  bound n x →
  follows n δ p s0 (copy_deepcopy x) (copy_deepcopy x)
    (λ y1 y2, y2 = shift δ y1 ∧ above n y1).
Proof.
  intros Hx w1 w2 (Hs1 & Hs2 & Hp1 & Hp2 & Hmoved & Hcl).
  unfold copy_deepcopy.
  destruct (deepcopy x (objects w1)) as [[y1 h1']|] eqn:Hcopy; simpl;
    [|by left].
  destruct (deepcopy_moved n δ p p_closed _ _ _ _ _ Hx Hp1 Hp2 Hmoved Hcopy)
    as (h2' & -> & Hp1' & Hp2' & Hmoved').
  destruct (deepcopy_fresh n _ _ _ _ (proj1 Hmoved) Hcl Hcopy)
    as (Hy & Hcl' & _ & _).
  simpl. eexists. split; [done|]. done.
Qed.

Lemma follows_load_conf :
  follows n δ p s0 (_load_conf lib) (_load_conf lib)
    (λ conf1 conf2, conf2 = conf1 + δ ∧ n ≤ conf1).
Proof.
  unfold _load_conf.
  eapply follows_bind; [apply (follows_call SPConfig_new); constructor|].
  intros conf1 conf2 [-> Hconf]. simpl in Hconf.
  apply Forall_cons in Hconf as [Hconf _]. simpl in Hconf.
  eapply follows_bind.
  { apply (follows_gets _ (λ a1 a2, a1 = SAML_CONFIG s0 ∧ a2 = a1)).
    by intros w1 w2 (-> & -> & _). }
  intros ? ? [-> ->].
  eapply follows_bind; [by apply follows_deepcopy|].
  intros cnf1 cnf2 [-> Hcnf].
  eapply follows_bind.
  { apply (follows_call (SPConfig_load conf1 cnf1)).
    by repeat constructor. }
  intros [] [] _. by apply follows_ret.
Qed.

Lemma follows_conf_getitem conf key :
  n ≤ conf →
  follows n δ p s0 (conf_getitem lib conf key) (conf_getitem lib (conf + δ) key)
    (λ v1 v2, v2 = shift δ v1 ∧ above n v1).
Proof.
  intros Hconf. unfold conf_getitem.
  eapply follows_bind.
  { apply (follows_call (SPConfig_getitem conf key)). by repeat constructor. }
  intros a1 a2 [-> Hret]. destruct a1 as [v|]; simpl in *.
  - apply follows_ret. split; [done|]. by apply Forall_cons in Hret as [? _].
  - apply follows_raise.
Qed.

(** From worlds with the same configuration, the metadata view returns the
    same response. *)
Lemma follows_metadata request1 request2 :
  follows n δ p s0 (metadata lib request1) (metadata lib request2) eq.
Proof.
  unfold metadata.
  eapply follows_bind;
    [apply (follows_gets _ eq); by intros w1 w2 (-> & -> & _)|].
  intros ed_id ? <-.
  eapply follows_bind;
    [apply (follows_gets _ eq); by intros w1 w2 (-> & -> & _)|].
  intros name ? <-.
  eapply follows_bind;
    [apply (follows_gets _ eq); by intros w1 w2 (-> & -> & _)|].
  intros sign ? <-.
  eapply follows_bind; [apply follows_load_conf|].
  intros conf ? [-> Hconf].
  eapply follows_bind.
  { apply (follows_call (SPConfig_get conf "valid_for" (VInt 24))).
    by repeat constructor. }
  intros valid_for ? [-> Hvalid%above_refs_1]. simpl.
  eapply follows_bind.
  { apply (follows_call (Entity_descriptor conf valid_for)).
    by repeat constructor. }
  intros ed ? [-> Hed%above_refs_1]. simpl.
  eapply follows_bind.
  { apply (follows_call (SPConfig_xmlsec conf)). by repeat constructor. }
  intros xmlsec ? [-> Hxmlsec%above_refs_1]. simpl.
  eapply follows_bind; [by apply follows_conf_getitem|].
  intros key_file ? [-> Hkey].
  eapply follows_bind.
  { apply (follows_call (SecurityContext_new xmlsec key_file)).
    by repeat constructor. }
  intros secc ? [-> Hsecc%above_refs_1]. simpl.
  eapply follows_bind.
  { apply (follows_call
             (Entities_descriptor [ed] valid_for name ed_id sign secc)).
    by repeat constructor. }
  intros output ? [-> Houtput%above_refs_1]. simpl.
  eapply follows_bind.
  { apply (follows_call (Str output)). by repeat constructor. }
  intros content ? [-> _]. simpl.
  by apply follows_ret.
Qed.

End following.

(** ** The scripted stand-in does not depend on addresses *)

Lemma touch_moved n δ v h1 h2 :
  moved n δ h1 h2 → above n v →
  moved n δ (Scripted.touch v h1) (Scripted.touch (shift δ v) h2).
Proof.
  intros Hmoved Hv. unfold Scripted.touch.
  destruct v as [| | | |l]; try done. simpl in *.
  rewrite (moved_lookup _ _ _ _ l Hmoved Hv).
  destruct (h1 !! l) as [[items| |]|] eqn:Hl; simpl; try done.
  by apply (moved_insert _ _ _ _ l (ODict (("loaded", VBool true) :: items))).
Qed.

Lemma foldr_touch_moved n δ vs h1 h2 :
  moved n δ h1 h2 → Forall (above n) vs →
  moved n δ (foldr Scripted.touch h1 vs)
    (foldr Scripted.touch h2 (shift δ <$> vs)).
Proof.
  intros Hmoved. induction 1 as [|v vs Hv _ IH]; simpl; [done|].
  by apply touch_moved.
Qed.

Lemma load_moved n δ conf cnf h1 h2 :
  moved n δ h1 h2 → closed_above n h1 → n ≤ conf → above n cnf →
  moved n δ (Scripted.load conf cnf h1)
    (Scripted.load (conf + δ) (shift δ cnf) h2).
Proof.
  intros Hmoved Hcl Hconf Hcnf. unfold Scripted.load.
  set (inner1 := match cnf with VRef l => _ | _ => _ end).
  set (inner2 := match shift δ cnf with VRef l => _ | _ => _ end).
  assert (inner2 = shift δ <$> inner1 ∧ Forall (above n) inner1)
    as [-> Hinner].
  { subst inner1 inner2. destruct cnf as [| | | |l]; try done. simpl in *.
    rewrite (moved_lookup _ _ _ _ l Hmoved Hcnf).
    destruct (h1 !! l) as [o|] eqn:Hl; simpl; [|done].
    split; [apply vals_shift_obj|]. exact (Hcl l o Hcnf Hl). }
  apply (moved_insert _ _ _ _ conf (OInst "SPConfig" [("cnf", cnf)]));
    [|done].
  apply foldr_touch_moved; [|done]. by apply touch_moved.
Qed.

Lemma scripted_position_independent s : position_independent (Scripted.lib s).
Proof.
  intros n δ A c v1 v2 Hmoved Hid Hst Hfile Hcl Hrefs.
  pose proof (moved_length _ _ _ _ Hmoved) as Hlen.
  destruct c; simpl in *; try done.
  - split; [done|]. by apply (moved_app _ _ _ _ (OInst "SPConfig" [])).
  - apply Forall_cons in Hrefs as [Hconf Hrefs].
    apply Forall_cons in Hrefs as [Hcnf _].
    split; [done|]. by apply load_moved.
  - split; [|done]. case_bool_decide; [|done].
    by destruct (Scripted.entityid s).
  - split; [done|]. 
    by apply (moved_app _ _ _ _ (OInst "Saml2Client" [("config", VRef conf)])).
  - by destruct (Scripted.verified s).
  - by destruct output.
Qed.

(** ** What the metadata view returns *)

(** In a well-formed world the metadata view asks for the validity with 24
    as default and for the key file, and returns what [str] gave unless
    there is no key file; it leaves the session and the protocol state as
    they are. *)
Lemma metadata_returns lib request w :
  let r := metadata lib request w in
  memory_safe lib → world_wf w →
  session (final r) = session w ∧
  state_file (final r) = state_file w ∧
  shelf (final r) = shelf w ∧
  config_lookups (trace r) = [("valid_for", VInt 24)] ∧
  match config_item "key_file" (trace r) with
  | [Some _] =>
      ∃ content,
        printed (trace r) = [content] ∧
        outcome r = Ok (Response content (Some "text/xml; charset=utf8"))
  | [None] => outcome r = Raise (KeyError "key_file")
  | _ => False
  end.
Proof.
  intros r Hsafe Hwf. subst r.
  wp_start (metadata lib request) w. unfold metadata.
  repeat wp_step_wf Hsafe Hwf.
  all: simpl; eauto 10.
Qed.

(** From a world that has the settings and the objects of [w1], whatever
    else it holds, the metadata view ends as it does from [w1]. *)
Lemma metadata_same lib request1 request2 w1 w2 :
  let r1 := metadata lib request1 w1 in
  let r2 := metadata lib request2 w2 in
  confined lib → position_independent lib → world_wf w1 →
  settings w2 = settings w1 → objects w1 `prefix_of` objects w2 →
  outcome r1 ≠ Raise RecursionError →
  outcome r2 = outcome r1.
Proof.
  intros r1 r2 Hconfined Hindep [Hwf Hcfg] Hset [g Hobj] Hout.
  assert (moved_worlds (length (objects w1)) (length g) (objects w1)
            (settings w1) w1 w2) as Hworlds.
  { split; [done|]. split; [done|]. split; [apply same_below_refl|].
    split; [|split; [|apply closed_above_length]].
    - intros l Hl. rewrite Hobj. by apply lookup_app_l.
    - split; [done|]. rewrite Hobj, length_app. split; [done|].
      by rewrite drop_all, drop_ge by (rewrite length_app; lia). }
  pose proof (follows_metadata lib Hconfined Hindep (length (objects w1))
                (length g) (objects w1) (settings w1)
                (λ l o Hl, proj1 (Forall_lookup _ _) Hwf l o Hl) Hcfg
                request1 request2 w1 w2 Hworlds) as Hfollows.
  fold r1 r2 in Hfollows.
  destruct (outcome r1) as [response|e].
  - by destruct Hfollows as (? & -> & -> & _).
  - by destruct Hfollows as [->| ->].
Qed.

(** ** The views at work on the scripted library *)

(** A deep copy of the configuration: four new objects, none of which
    refers to one of the four it was copied from. *)
Example deepcopy_config :
  deepcopy (VRef 0) Scripted.config_objects
  = Some (VRef 4,
          Scripted.config_objects ++
          [ ODict [("entityid", VStr "https://sp.example/metadata");
                   ("service", VRef 5); ("metadata", VRef 7)];
            ODict [("sp", VRef 6)];
            ODict [("name", VStr "Example SP")];
            OList [VStr "idp.xml"] ]).
Proof. vm_compute. reflexivity. Qed.

(** A list that holds itself is copied to a list that holds itself. *)
Example deepcopy_cycle :
  deepcopy (VRef 0) [OList [VRef 0; VRef 1]; ODict [("up", VRef 0)]]
  = Some (VRef 2,
          [ OList [VRef 0; VRef 1]; ODict [("up", VRef 0)];
            OList [VRef 2; VRef 3]; ODict [("up", VRef 2)] ]).
Proof. vm_compute. reflexivity. Qed.

(** Why the copy has to be there, and deep: loading the configuration
    itself writes into [settings.SAML_CONFIG], and loading a shallow copy of
    it writes into the dict under ['service']. *)
Example load_without_copy :
  Scripted.load 4 (VRef 0) (Scripted.config_objects ++ [OInst "SPConfig" []])
    !! 0
  = Some (ODict [("loaded", VBool true);
                 ("entityid", VStr "https://sp.example/metadata");
                 ("service", VRef 1); ("metadata", VRef 3)]).
Proof. vm_compute. reflexivity. Qed.

Example load_shallow_copy :
  (h ← snd <$> shallowcopy (VRef 0)
                 (Scripted.config_objects ++ [OInst "SPConfig" []]);
   Scripted.load 4 (VRef 5) h !! 1)
  = Some (ODict [("loaded", VBool true); ("sp", VRef 2)]).
Proof. vm_compute. reflexivity. Qed.

(** A verified response for a known user: logged in, subject stored,
    redirect to the relay state. *)
Example acs_logs_alice_in :
  let r := assertion_consumer_service (Scripted.lib Scripted.script)
             Scripted.users
             (Scripted.post [("SAMLResponse", "PHNhbWw+"); ("RelayState", "/inbox")])
             Scripted.anonymous in
  outcome r = Ok (ResponseRedirect "/inbox") ∧
  user (session (final r)) = Some "alice" ∧
  items (session (final r)) !! "SAML_SUBJECT_ID" = Some "alice@idp.example" ∧
  logins (trace r) = ["alice"].
Proof. vm_compute. done. Qed.

(** Logout started by the identity provider: torn down and redirected. *)
Example logout_service_idp_initiated :
  let r := logout_service (Scripted.lib Scripted.script) Scripted.page
             (Scripted.get [("SAMLRequest", "PHNhbWw+")]) Scripted.logged_in in
  outcome r = Ok (ResponseRedirect "https://idp.example/done") ∧
  teardowns (trace r) = 1 ∧
  session (final r) = empty_session.
Proof. vm_compute. done. Qed.

(** The answer to a logout this provider started: torn down.  The view does
    not sync; the entry pysaml2 changed in place reaches the file when the
    view returns and the shelf is closed with its locals. *)
Example logout_service_closes_on_return :
  let r := logout_service (Scripted.lib Scripted.script) Scripted.page
             (Scripted.get [("SAMLResponse", "PHNhbWw+")]) Scripted.logged_in in
  outcome r = Ok (Response "Logged out" None) ∧
  store_uses (trace r) = [Opened; Used; Used] ∧
  store_closes (trace r) = [{["reply" := "seen"]}] ∧
  shelf (final r) = None ∧
  state_file (final r) = {["reply" := "seen"]}.
Proof. cbv zeta. repeat apply conj; reflexivity. Qed.

Example logout_syncs :
  let r := logout (Scripted.lib Scripted.script) Scripted.to_login
             (Scripted.get []) Scripted.logged_in in
  outcome r = Ok (ResponseRedirect "https://idp.example/slo?SAMLRequest=xyz") ∧
  store_uses (trace r) = [Opened; Used; Used; Synced] ∧
  shelf (final r) = None ∧
  state_file (final r) = {["alice@idp.example" := "logout sent"]}.
Proof. cbv zeta. repeat apply conj; reflexivity. Qed.

(** A response pysaml2 does not verify: the fixed error body, nobody is
    logged in, and the session is as it was. *)
Example acs_verification_failed :
  let r := assertion_consumer_service
             (Scripted.lib (Cases.with_verified None)) Scripted.users
             (Scripted.post [("SAMLResponse", "PHNhbWw+")]) Cases.awaiting in
  outcome r =
    Ok (Response "SAML response has errors. Please check the logs" None) ∧
  logins (trace r) = [] ∧
  session (final r) = session Cases.awaiting.
Proof. cbv zeta. repeat apply conj; reflexivity. Qed.

(** A verified response for which the backend finds no user: the answered
    query is forgotten, and nobody is logged in. *)
Example acs_user_not_valid :
  let r := assertion_consumer_service
             (Scripted.lib (Cases.with_verified (Some Cases.nameless)))
             Scripted.users
             (Scripted.post [("SAMLResponse", "PHNhbWw+")]) Cases.awaiting in
  outcome r = Ok (Response "user not valid" None) ∧
  logins (trace r) = [] ∧
  user (session (final r)) = None ∧
  outstanding (session (final r)) = ∅.
Proof. cbv zeta. repeat apply conj; reflexivity. Qed.

(** Alice comes back from the identity provider to a browser in which bob is
    logged in: what bob's session held is gone. *)
Example acs_takes_over_the_session_of_bob :
  let r := assertion_consumer_service (Scripted.lib Scripted.script)
             Scripted.users (Scripted.post [("SAMLResponse", "PHNhbWw+")])
             Cases.bob_awaiting in
  outcome r = Ok (ResponseRedirect "/") ∧
  session (final r)
  = {| items := {["SAML_SUBJECT_ID" := "alice@idp.example"]};
       outstanding := ∅; identities := ∅; user := Some "alice" |}.
Proof. cbv zeta. repeat apply conj; reflexivity. Qed.

(** A logout request that pysaml2 reports as done without a response to
    send: the view ends in an exception after the teardown.  The shelf is
    left open; the entry pysaml2 assigned is in the file already. *)
Example logout_service_raises_with_the_shelf_open :
  let r := logout_service
             (Scripted.lib (Cases.with_logout_asked (None, true)))
             Scripted.page (Scripted.get [("SAMLRequest", "PHNhbWw+")])
             Scripted.logged_in in
  outcome r = Raise TypeError ∧
  session (final r) = empty_session ∧
  store_closes (trace r) = [] ∧
  shelf (final r) = Some {["alice@idp.example" := "logout asked"]} ∧
  state_file (final r) = {["alice@idp.example" := "logout asked"]}.
Proof. cbv zeta. repeat apply conj; reflexivity. Qed.

(** The metadata view, twice in a row: the same document, and each run
    leaves its configuration object and its copy of the settings behind. *)
Example metadata_twice :
  let r1 := metadata (Scripted.lib Scripted.script) (Scripted.get [])
              Scripted.anonymous in
  let r2 := metadata (Scripted.lib Scripted.script) (Scripted.get [])
              (final r1) in
  outcome r1
  = Ok (Response "<EntitiesDescriptor/>" (Some "text/xml; charset=utf8")) ∧
  outcome r2 = outcome r1 ∧
  length (objects Scripted.anonymous) = 4 ∧
  length (objects (final r1)) = 9 ∧
  length (objects (final r2)) = 14.
Proof. cbv zeta. repeat apply conj; reflexivity. Qed.

(** ** The claims *)

(** C1.  A POST to the assertion-consumer endpoint that carries a
    [SAMLResponse], in a well-formed world.  The view asks the configuration
    for its entity identifier and, unless there is none, asks pysaml2 to
    verify the response.  A user is logged in only when pysaml2 verified the
    response and the authentication backend resolved a user: [auth.login] is
    then called once, for that user.  When pysaml2 answers [None] the view
    returns the fixed error body, which is no redirect, and logs nobody in;
    when the backend finds no user for a verified response the view returns
    ["user not valid"] and logs nobody in.  Without an entity identifier the
    view ends in [KeyError('entityid')] before it asks pysaml2, and nobody is
    logged in. *)
Theorem acs_session_only_when_verified_and_resolved
    lib auth_authenticate request w saml_response :
  let r := assertion_consumer_service lib auth_authenticate request w in
  memory_safe lib → world_wf w →
  POST request !! "SAMLResponse" = Some saml_response →
  match verifications (trace r) with
  | [] =>
      config_items (trace r) = [("entityid", None)] ∧
      outcome r = Raise (KeyError "entityid") ∧
      logins (trace r) = [] ∧
      user (session (final r)) = user (session w)
  | [None] =>
      outcome r =
        Ok (Response "SAML response has errors. Please check the logs" None) ∧
      logins (trace r) = [] ∧
      user (session (final r)) = user (session w)
  | [Some response] =>
      match auth_authenticate (session_info response) with
      | None =>
          outcome r = Ok (Response "user not valid" None) ∧
          logins (trace r) = [] ∧
          user (session (final r)) = user (session w)
      | Some u =>
          logins (trace r) = [u] ∧ user (session (final r)) = Some u
      end
  | _ => False
  end.
Proof.
  intros r Hsafe Hwf Hpost. subst r.
  wp_start (assertion_consumer_service lib auth_authenticate request) w.
  unfold assertion_consumer_service.
  repeat wp_step_wf Hsafe Hwf.
  all: simpl in *; repeat case_match; simplify_eq; eauto.
Qed.

Lemma acs_session_only_when_verified_and_resolved_witness :
  let r := assertion_consumer_service
             (Scripted.lib (Cases.with_verified None)) Scripted.users
             (Scripted.post [("SAMLResponse", "PHNhbWw+")]) Cases.awaiting in
  outcome r =
    Ok (Response "SAML response has errors. Please check the logs" None) ∧
  logins (trace r) = [] ∧
  user (session (final r)) = user (session Cases.awaiting).
Proof.
  apply (acs_session_only_when_verified_and_resolved
           (Scripted.lib (Cases.with_verified None)) Scripted.users
           (Scripted.post [("SAMLResponse", "PHNhbWw+")]) Cases.awaiting
           "PHNhbWw+").
  - apply scripted_memory_safe.
  - apply (bool_decide_unpack _). vm_compute. exact I.
  - vm_compute. reflexivity.
Defined.

(** C2.  A GET to the login endpoint with no [idp] parameter, in a run in
    which the configuration says that WAYF is not needed and
    [client.authenticate] answered a request identifier [sid] that is not
    outstanding yet and the header [('Location', url)]: one authentication
    request was built, for the redirect binding and with [next] (default
    ["/"]) as relay state; [sid] is recorded with that destination, which is
    the one entry added to the outstanding queries; and the answer is a
    redirect to [url]. *)
Theorem login_sends_authn_request lib request w sid url :
  let r := login lib request w in
  let dest := default "/" (GET request !! "next") in
  GET request !! "idp" = None →
  wayf_answers (trace r) = [false] →
  authn_answers (trace r) = [(sid, ["Location"; url])] →
  outstanding (session w) !! sid = None →
  authn_requests (trace r) = [(None, dest, BINDING_HTTP_REDIRECT)] ∧
  outcome r = Ok (ResponseRedirect url) ∧
  outstanding (session (final r)) = <[sid := dest]> (outstanding (session w)) ∧
  size (outstanding (session (final r))) = S (size (outstanding (session w))).
Proof.
  intros r dest Hidp Hwayf Hauthn Hfresh.
  enough (authn_requests (trace r) = [(None, dest, BINDING_HTTP_REDIRECT)] ∧
          outcome r = Ok (ResponseRedirect url) ∧
          outstanding (session (final r))
            = <[sid := dest]> (outstanding (session w)))
    as (Hreq & Hout & Hoq).
  { rewrite Hoq. by rewrite map_size_insert_None. }
  revert Hwayf Hauthn. subst r dest.
  wp_start (login lib request) w.
  unfold login. rewrite Hidp.
  repeat wp_step.
  all: simpl in *; intros; simplify_list_eq; try done; try congruence.
Qed.

Lemma login_sends_authn_request_witness :
  let r := login (Scripted.lib Scripted.script) (Scripted.get [])
             Scripted.anonymous in
  authn_requests (trace r) = [(None, "/", BINDING_HTTP_REDIRECT)] ∧
  outcome r = Ok (ResponseRedirect "https://idp.example/sso?SAMLRequest=abc") ∧
  outstanding (session (final r)) = <["id-1" := "/"]> ∅ ∧
  size (outstanding (session (final r))) = 1.
Proof.
  apply (login_sends_authn_request (Scripted.lib Scripted.script)
           (Scripted.get []) Scripted.anonymous "id-1"
           "https://idp.example/sso?SAMLRequest=abc");
    vm_compute; reflexivity.
Defined.

(** C3, as stated, fails: a logout request of the identity provider is not
    always answered in one of the three ways.  When pysaml2 reports success
    and hands back no response, the view tears the session down and then
    ends in a [TypeError], since it takes [response[0]] of [None]. *)
Lemma logout_service_success_without_response :
  let r := logout_service (Scripted.lib (Cases.with_logout_asked (None, true)))
             Scripted.page (Scripted.get [("SAMLRequest", "PHNhbWw+")])
             Scripted.logged_in in
  logout_request_answers (trace r) = [(None, true)] ∧
  teardowns (trace r) = 1 ∧
  outcome r = Raise TypeError ∧
  ¬ three_outcomes r.
Proof.
  cbv zeta. repeat apply conj; try (vm_compute; reflexivity).
  intros [[_ [url Hout]]|[[_ [url Hout]]|[_ Hout]]];
    vm_compute in Hout; discriminate.
Qed.

(** C3, amended.  A GET to the logout-service endpoint with exactly one of
    the two protocol parameters, in a well-formed world and from a session
    that holds a subject identifier: pysaml2 is asked, once.  With
    [SAMLResponse]: the session is torn down, once, exactly when
    [client.logout_response] answered a response whose status is ["200 Ok"],
    and the answer is then the logged-out response; on any other answer the
    view returns the body ["Error during logout"] and tears nothing down.
    With [SAMLRequest]: the session is torn down exactly when
    [client.logout_request] reported success, before the response is looked
    at.  A response whose first header is [Location] gives a redirect to its
    target, whether or not success was reported; a first header of another
    name gives an [AssertionError], and an empty response an [IndexError].
    No response gives the body ["Error during logout"] when failure was
    reported, and a [TypeError] when success was. *)
Theorem logout_service_dispatch lib logged_out_response request w :
  let r := logout_service lib logged_out_response request w in
  memory_safe lib → world_wf w →
  is_Some (items (session w) !! "SAML_SUBJECT_ID") →
  match GET request !! "SAMLResponse", GET request !! "SAMLRequest" with
  | Some _, None =>
      ∃ answer,
        logout_response_answers (trace r) = [answer] ∧
        if match answer with
           | Some res => bool_decide (lr_code res = "200 Ok")
           | None => false
           end
        then
          teardowns (trace r) = 1 ∧
          outcome r = Ok (logged_out_response request) ∧
          session (final r) = empty_session
        else
          teardowns (trace r) = 0 ∧
          outcome r = Ok (Response "Error during logout" None)
  | None, Some _ =>
      ∃ response success,
        logout_request_answers (trace r) = [(response, success)] ∧
        teardowns (trace r) = (if success then 1 else 0) ∧
        match response with
        | Some ((name, url) :: _) =>
            outcome r =
              if bool_decide (name = "Location")
              then Ok (ResponseRedirect url)
              else Raise AssertionError
        | Some [] => outcome r = Raise IndexError
        | None =>
            outcome r =
              if success then Raise TypeError
              else Ok (Response "Error during logout" None)
        end
  | _, _ => True
  end.
Proof.
  intros r Hsafe Hwf [subject Hsubject]. subst r.
  destruct (GET request !! "SAMLResponse") as [xml|] eqn:Hresp;
    destruct (GET request !! "SAMLRequest") as [req|] eqn:Hreq; try done.
  - wp_start (logout_service lib logged_out_response request) w.
    unfold logout_service. rewrite Hresp.
    repeat wp_step_wf Hsafe Hwf.
    all: simpl in *; simplify_eq.
    all: eexists; (split; [done|]).
    all: simpl;
      repeat match goal with H : bool_decide _ = _ |- _ => rewrite H end;
      done.
  - wp_start (logout_service lib logged_out_response request) w.
    unfold logout_service. rewrite Hresp, Hreq.
    repeat wp_step_wf Hsafe Hwf.
    all: simpl in *; simplify_eq.
    all: eexists _, _; (split; [done|]); (split; [done|]).
    all: simpl in *;
      try match goal with
          | |- context [match ?l with [] => _ | _ :: _ => _ end] =>
              destruct l as [|[? ?] ?]
          end;
      simpl in *; simplify_list_eq;
      repeat match goal with H : bool_decide _ = _ |- _ => rewrite H end;
      done.
Qed.

Lemma logout_service_dispatch_witness :
  let r := logout_service (Scripted.lib Scripted.script) Scripted.page
             (Scripted.get [("SAMLRequest", "PHNhbWw+")]) Scripted.logged_in in
  ∃ response success,
    logout_request_answers (trace r) = [(response, success)] ∧
    teardowns (trace r) = (if success then 1 else 0) ∧
    match response with
    | Some ((name, url) :: _) =>
        outcome r =
          if bool_decide (name = "Location")
          then Ok (ResponseRedirect url)
          else Raise AssertionError
    | Some [] => outcome r = Raise IndexError
    | None =>
        outcome r =
          if success then Raise TypeError
          else Ok (Response "Error during logout" None)
    end.
Proof.
  apply (logout_service_dispatch (Scripted.lib Scripted.script) Scripted.page
           (Scripted.get [("SAMLRequest", "PHNhbWw+")]) Scripted.logged_in).
  - apply scripted_memory_safe.
  - apply (bool_decide_unpack _). vm_compute. exact I.
  - by eexists.
Defined.

(** C4.  A GET to the logout-service endpoint with neither [SAMLResponse] nor
    [SAMLRequest] is to be answered as not found.  From a session without
    ['SAML_SUBJECT_ID'] the view raises [KeyError] instead: the session is
    read before the parameters are looked at. *)
Theorem logout_service_without_subject_is_no_404 :
  outcome (logout_service (Scripted.lib Scripted.script) Scripted.page
             (Scripted.get []) Scripted.anonymous)
  = Raise (KeyError "SAML_SUBJECT_ID").
Proof. vm_compute. reflexivity. Qed.

(** With a subject identifier in the session, a request with neither
    parameter is answered as not found. *)
Lemma logout_service_not_found lib logged_out_response request w :
  memory_safe lib → world_wf w →
  is_Some (items (session w) !! "SAML_SUBJECT_ID") →
  GET request !! "SAMLResponse" = None →
  GET request !! "SAMLRequest" = None →
  outcome (logout_service lib logged_out_response request w)
  = Raise (Http404 "No SAMLResponse or SAMLRequest parameter found").
Proof.
  intros Hsafe Hwf [subject Hsubject] Hresp Hreq.
  wp_start (logout_service lib logged_out_response request) w.
  unfold logout_service. rewrite Hresp, Hreq.
  repeat wp_step_wf Hsafe Hwf.
  all: simpl in *; simplify_eq; done.
Qed.

(** C5.  The logout-service view reads [request.session['SAML_SUBJECT_ID']]
    before it looks at the query parameters: whatever the parameters are, a
    request whose session has no such key ends in
    [KeyError('SAML_SUBJECT_ID')], with no call of [logout_response] or
    [logout_request] and no teardown. *)
Theorem logout_service_reads_subject_first lib logged_out_response request w :
  let r := logout_service lib logged_out_response request w in
  memory_safe lib → world_wf w →
  items (session w) !! "SAML_SUBJECT_ID" = None →
  outcome r = Raise (KeyError "SAML_SUBJECT_ID") ∧
  logout_response_answers (trace r) = [] ∧
  logout_request_answers (trace r) = [] ∧
  teardowns (trace r) = 0.
Proof.
  intros r Hsafe Hwf Hkey. subst r.
  wp_start (logout_service lib logged_out_response request) w.
  unfold logout_service.
  repeat wp_step_wf Hsafe Hwf.
  all: simpl in *; simplify_eq; try done.
Qed.

Lemma logout_service_reads_subject_first_witness :
  let r := logout_service (Scripted.lib Scripted.script) Scripted.page
             (Scripted.get [("SAMLRequest", "abc")]) Scripted.anonymous in
  outcome r = Raise (KeyError "SAML_SUBJECT_ID") ∧
  logout_response_answers (trace r) = [] ∧
  logout_request_answers (trace r) = [] ∧
  teardowns (trace r) = 0.
Proof.
  apply (logout_service_reads_subject_first (Scripted.lib Scripted.script)
           Scripted.page (Scripted.get [("SAMLRequest", "abc")])
           Scripted.anonymous).
  - apply scripted_memory_safe.
  - apply (bool_decide_unpack _). vm_compute. exact I.
  - vm_compute. reflexivity.
Defined.

(** C6, as stated, fails: for a user who is logged in locally and has no SAML
    subject identifier in the session, logout-initiate does not end in
    [NotAuthenticated]. *)
Lemma logout_without_identity_is_a_key_error :
  is_Some (user (session Scripted.local_only)) ∧
  items (session Scripted.local_only) !! "SAML_SUBJECT_ID" = None ∧
  outcome (logout (Scripted.lib Scripted.script) Scripted.to_login
             (Scripted.get []) Scripted.local_only)
  ≠ Raise NotAuthenticated.
Proof. split; [by eexists|]. split; [done|]. vm_compute. discriminate. Qed.

(** C6, amended.  A request to the logout-initiate endpoint from a session
    that passes [login_required] and has no ['SAML_SUBJECT_ID'] fails with
    [KeyError('SAML_SUBJECT_ID')], and no logout request is built. *)
Theorem logout_without_identity_fails lib redirect_to_login request w :
  let r := logout lib redirect_to_login request w in
  memory_safe lib → world_wf w →
  is_Some (user (session w)) →
  items (session w) !! "SAML_SUBJECT_ID" = None →
  outcome r = Raise (KeyError "SAML_SUBJECT_ID") ∧
  logout_requests_built (trace r) = [].
Proof.
  intros r Hsafe Hwf [u Hu] Hkey. subst r.
  wp_start (logout lib redirect_to_login request) w.
  unfold logout, login_required, logout_view.
  repeat wp_step_wf Hsafe Hwf.
  all: simpl in *; simplify_eq; try done.
Qed.

Lemma logout_without_identity_fails_witness :
  let r := logout (Scripted.lib Scripted.script) Scripted.to_login
             (Scripted.get []) Scripted.local_only in
  outcome r = Raise (KeyError "SAML_SUBJECT_ID") ∧
  logout_requests_built (trace r) = [].
Proof.
  apply (logout_without_identity_fails (Scripted.lib Scripted.script)
           Scripted.to_login (Scripted.get []) Scripted.local_only).
  - apply scripted_memory_safe.
  - apply (bool_decide_unpack _). vm_compute. exact I.
  - by eexists.
  - vm_compute. reflexivity.
Defined.




(** C8.  Each of the five views loads its configuration from a deep copy of
    [settings.SAML_CONFIG]; so, for a library that writes to nothing but what
    it can reach from the references it is handed, the settings are the same
    after the view has run, and every object that was in the store before is
    as it was: the store has only grown. *)
Theorem views_leave_settings_unchanged
    lib auth_authenticate logged_out_response redirect_to_login v request w :
  let r := run_view lib auth_authenticate logged_out_response
             redirect_to_login v request w in
  confined lib →
  settings (final r) = settings w ∧
  objects w `prefix_of` objects (final r).
Proof.
  intros r Hconfined.
  destruct (keeps_run_view lib auth_authenticate logged_out_response
              redirect_to_login Hconfined (length (objects w)) (objects w)
              (settings w) v request w) as [(Hlen & _ & Hsame & Hset) _].
  { split; [done|]. split; [apply closed_above_length|].
    split; [apply same_below_refl|done]. }
  split; [done|]. by apply same_below_prefix.
Qed.

Lemma views_leave_settings_unchanged_witness :
  let r := run_view (Scripted.lib Scripted.script) Scripted.users
             Scripted.page Scripted.to_login LoginView (Scripted.get [])
             Scripted.anonymous in
  settings (final r) = settings Scripted.anonymous ∧
  objects Scripted.anonymous `prefix_of` objects (final r).
Proof.
  apply views_leave_settings_unchanged. apply scripted_confined.
Defined.



(** C10.  A GET to the login endpoint with no [idp] parameter, in a run in
    which the configuration says that WAYF is needed: the discovery page is
    rendered with the identity providers the configuration lists and the
    destination, no authentication request is built, and the outstanding
    queries are as they were. *)
Theorem login_wayf_sends_nothing lib request w :
  let r := login lib request w in
  GET request !! "idp" = None →
  wayf_answers (trace r) = [true] →
  (∃ idps,
     outcome r =
       Ok (Rendered "djangosaml2/wayf.html"
             {| available_idps := idps;
                came_from := default "/" (GET request !! "next") |})) ∧
  authn_requests (trace r) = [] ∧
  outstanding (session (final r)) = outstanding (session w).
Proof.
  intros r Hidp. subst r.
  wp_start (login lib request) w.
  unfold login. rewrite Hidp.
  repeat wp_step.
  all: simpl in *; intros; simplify_list_eq; eauto.
Qed.

Lemma login_wayf_sends_nothing_witness :
  let r := login (Scripted.lib Scripted.script_wayf)
             (Scripted.get [("next", "/inbox")]) Scripted.anonymous in
  (∃ idps,
     outcome r =
       Ok (Rendered "djangosaml2/wayf.html"
             {| available_idps := idps; came_from := "/inbox" |})) ∧
  authn_requests (trace r) = [] ∧
  outstanding (session (final r)) = ∅.
Proof.
  apply (login_wayf_sends_nothing (Scripted.lib Scripted.script_wayf)
           (Scripted.get [("next", "/inbox")]) Scripted.anonymous);
    vm_compute; reflexivity.
Defined.

(** ** More of the views *)

Lemma lib_without_memory_safe key s : memory_safe (Cases.lib_without key s).
Proof.
  intros A c v Hwf Hrefs.
  pose proof (scripted_memory_safe s A c v Hwf Hrefs) as Hs.
  destruct c; try exact Hs.
  unfold Cases.lib_without. by case_bool_decide.
Qed.

(** X1.  [_load_conf] returns, after two calls on the library: one that
    creates the configuration object and one that loads into it a copy of
    [settings.SAML_CONFIG] that is none of the objects that were there
    before. *)
Theorem load_conf_hands_a_fresh_copy lib w :
  let r := _load_conf lib w in
  memory_safe lib → world_wf w →
  ∃ conf cnf,
    outcome r = Ok conf ∧
    trace r = [ELib SPConfig_new conf; ELib (SPConfig_load conf cnf) ()] ∧
    above (length (objects w)) cnf ∧
    settings (final r) = settings w ∧ session (final r) = session w.
Proof.
  intros r Hsafe [Hwf Hcfg]. subst r. unfold _load_conf.
  destruct (Hsafe _ SPConfig_new (view NoCaches w) Hwf) as [Hwf1 Hlen1];
    [by constructor|].
  unfold mbind, M_bind, call at 1. simpl.
  set (r1 := lib _ SPConfig_new (view NoCaches w)) in *.
  unfold copy_deepcopy. simpl.
  destruct (deepcopy_total (SAML_CONFIG (settings w)) (lv_heap r1.2))
    as [[cnf h] Hcopy]; [done|by eapply bound_le|].
  rewrite Hcopy. simpl.
  exists r1.1, cnf.
  destruct (deepcopy_fresh (length (lv_heap r1.2)) _ _ _ _
              (le_n _) (closed_above_length _) Hcopy) as (Habove & _).
  split; [done|]. split; [|split; [by eapply above_le|done]].
  by destruct (lib _ (SPConfig_load r1.1 cnf) _) as [[] v].
Qed.

Lemma load_conf_hands_a_fresh_copy_witness :
  let r := _load_conf (Scripted.lib Scripted.script) Scripted.anonymous in
  ∃ conf cnf,
    outcome r = Ok conf ∧
    trace r = [ELib SPConfig_new conf; ELib (SPConfig_load conf cnf) ()] ∧
    above (length (objects Scripted.anonymous)) cnf ∧
    settings (final r) = settings Scripted.anonymous ∧
    session (final r) = session Scripted.anonymous.
Proof.
  apply (load_conf_hands_a_fresh_copy (Scripted.lib Scripted.script)
           Scripted.anonymous).
  - apply scripted_memory_safe.
  - apply (bool_decide_unpack _). vm_compute. exact I.
Defined.

(** X2.  A GET to the login endpoint with an [idp] parameter: the
    configuration is not asked whether WAYF is needed, the single sign-on
    location of that identity provider is looked up, and the one
    authentication request that is built goes to that location, over the
    redirect binding, with [next] (default ["/"]) as relay state. *)
Theorem login_with_idp_skips_wayf lib request w idp :
  let r := login lib request w in
  memory_safe lib → world_wf w →
  GET request !! "idp" = Some idp →
  wayf_answers (trace r) = [] ∧
  ∃ sso,
    sso_lookups (trace r) = [(idp, sso)] ∧
    authn_requests (trace r)
    = [(Some sso, default "/" (GET request !! "next"), BINDING_HTTP_REDIRECT)].
Proof.
  intros r Hsafe Hwf Hidp. subst r.
  wp_start (login lib request) w.
  unfold login. rewrite Hidp.
  repeat wp_step_wf Hsafe Hwf.
  all: simpl; eauto.
Qed.

Lemma login_with_idp_skips_wayf_witness :
  let r := login (Scripted.lib Scripted.script_wayf)
             (Scripted.get [("idp", "https://idp.example/metadata")])
             Scripted.anonymous in
  wayf_answers (trace r) = [] ∧
  ∃ sso,
    sso_lookups (trace r) = [("https://idp.example/metadata", sso)] ∧
    authn_requests (trace r) = [(Some sso, "/", BINDING_HTTP_REDIRECT)].
Proof.
  apply (login_with_idp_skips_wayf (Scripted.lib Scripted.script_wayf)
           (Scripted.get [("idp", "https://idp.example/metadata")])
           Scripted.anonymous "https://idp.example/metadata").
  - apply scripted_memory_safe.
  - apply (bool_decide_unpack _). vm_compute. exact I.
  - vm_compute. reflexivity.
Defined.

(** X3.  When what [client.authenticate] answers is not a pair of
    ['Location'] and a target, the login view ends in an [AssertionError]
    and leaves the session as it was: no outstanding query is recorded. *)
Theorem login_rejects_malformed_answer lib request w sid result :
  let r := login lib request w in
  authn_answers (trace r) = [(sid, result)] →
  length result ≠ 2 ∨ result !! 0 ≠ Some "Location" →
  outcome r = Raise AssertionError ∧ session (final r) = session w.
Proof.
  intros r. subst r.
  wp_start (login lib request) w.
  unfold login.
  repeat wp_step.
  all: simpl in *; intros; simplify_eq; try done.
  all: repeat match goal with
              | H : bool_decide _ = true |- _ => apply bool_decide_eq_true in H
              end;
    match goal with H : _ ∨ _ |- _ => destruct H; done end.
Qed.

Lemma login_rejects_malformed_answer_witness :
  let r := login (Scripted.lib (Cases.with_authn ("id-1", ["Refresh"; "0"])))
             (Scripted.get []) Scripted.anonymous in
  outcome r = Raise AssertionError ∧
  session (final r) = session Scripted.anonymous.
Proof.
  apply (login_rejects_malformed_answer
           (Scripted.lib (Cases.with_authn ("id-1", ["Refresh"; "0"])))
           (Scripted.get []) Scripted.anonymous "id-1" ["Refresh"; "0"]).
  - vm_compute. reflexivity.
  - right. vm_compute. discriminate.
Defined.

(** X4.  Of the session the login view changes the outstanding queries at
    most; it logs nobody in or out and does not touch the protocol state
    store. *)
Theorem login_touches_outstanding_only lib request w :
  let r := login lib request w in
  items (session (final r)) = items (session w) ∧
  identities (session (final r)) = identities (session w) ∧
  user (session (final r)) = user (session w) ∧
  shelf (final r) = shelf w ∧ state_file (final r) = state_file w ∧
  logins (trace r) = [] ∧ teardowns (trace r) = 0 ∧ store_uses (trace r) = [].
Proof.
  intros r. subst r.
  wp_start (login lib request) w.
  unfold login.
  repeat wp_step.
  all: simpl; done.
Qed.

(** X5.  A POST to the assertion-consumer endpoint without a [SAMLResponse]
    field ends in [KeyError('SAMLResponse')] before a client is built, and
    leaves the session as it was. *)
Theorem acs_without_saml_response lib auth_authenticate request w :
  let r := assertion_consumer_service lib auth_authenticate request w in
  memory_safe lib → world_wf w →
  POST request !! "SAMLResponse" = None →
  outcome r = Raise (KeyError "SAMLResponse") ∧
  clients_built (trace r) = [] ∧ verifications (trace r) = [] ∧
  session (final r) = session w.
Proof.
  intros r Hsafe Hwf Hpost. subst r.
  wp_start (assertion_consumer_service lib auth_authenticate request) w.
  unfold assertion_consumer_service.
  repeat wp_step_wf Hsafe Hwf.
  all: simpl in *; simplify_eq; done.
Qed.

Lemma acs_without_saml_response_witness :
  let r := assertion_consumer_service (Scripted.lib Scripted.script)
             Scripted.users (Scripted.post [("RelayState", "/inbox")])
             Cases.awaiting in
  outcome r = Raise (KeyError "SAMLResponse") ∧
  clients_built (trace r) = [] ∧ verifications (trace r) = [] ∧
  session (final r) = session Cases.awaiting.
Proof.
  apply (acs_without_saml_response (Scripted.lib Scripted.script)
           Scripted.users (Scripted.post [("RelayState", "/inbox")])
           Cases.awaiting).
  - apply scripted_memory_safe.
  - apply (bool_decide_unpack _). vm_compute. exact I.
  - vm_compute. reflexivity.
Defined.

(** X6.  When the response is verified, the backend resolves a user and the
    session information names the subject: the user is logged in, the name
    identifier is stored in the session under ['SAML_SUBJECT_ID'], and the
    answer is a redirect to the posted [RelayState], or to ["/"] when none
    was posted.  The other items of the session stay, unless the session
    belonged to another user: then [auth.login] has flushed it, and the
    subject identifier is the one item it holds. *)
Theorem acs_stores_subject_and_redirects
    lib auth_authenticate request w response u name_id :
  let r := assertion_consumer_service lib auth_authenticate request w in
  verifications (trace r) = [Some response] →
  auth_authenticate (session_info response) = Some u →
  session_info response !! "name_id" = Some name_id →
  outcome r = Ok (ResponseRedirect (default "/" (POST request !! "RelayState"))) ∧
  items (session (final r))
  = <["SAML_SUBJECT_ID" := name_id]>
      (if belongs_to_another u (session w) then ∅ else items (session w)) ∧
  user (session (final r)) = Some u ∧
  logins (trace r) = [u] ∧ teardowns (trace r) = 0.
Proof.
  intros r. subst r.
  wp_start (assertion_consumer_service lib auth_authenticate request) w.
  unfold assertion_consumer_service.
  repeat wp_step.
  all: simpl in *; intros; simplify_eq; try done.
  unfold belongs_to_another; simpl. by repeat case_match.
Qed.

Lemma acs_stores_subject_and_redirects_witness :
  let r := assertion_consumer_service (Scripted.lib Scripted.script)
             Scripted.users (Scripted.post [("SAMLResponse", "PHNhbWw+")])
             Cases.bob_awaiting in
  outcome r = Ok (ResponseRedirect "/") ∧
  items (session (final r)) = <["SAML_SUBJECT_ID" := "alice@idp.example"]> ∅ ∧
  user (session (final r)) = Some "alice" ∧
  logins (trace r) = ["alice"] ∧ teardowns (trace r) = 0.
Proof.
  apply (acs_stores_subject_and_redirects (Scripted.lib Scripted.script)
           Scripted.users (Scripted.post [("SAMLResponse", "PHNhbWw+")])
           Cases.bob_awaiting
           {| session_id := "id-1";
              session_info := {["name_id" := "alice@idp.example"]} |}
           "alice" "alice@idp.example");
    vm_compute; reflexivity.
Defined.

(** X7.  The user is logged in before the subject is read: when the response
    is verified and the backend resolves a user, and the session information
    has no ['name_id'], the view ends in [KeyError('name_id')] with the user
    logged in and no subject identifier stored; the items of the session are
    as they were, or gone when the session belonged to another user. *)
Theorem acs_logs_in_before_it_reads_the_subject
    lib auth_authenticate request w response u :
  let r := assertion_consumer_service lib auth_authenticate request w in
  verifications (trace r) = [Some response] →
  auth_authenticate (session_info response) = Some u →
  session_info response !! "name_id" = None →
  outcome r = Raise (KeyError "name_id") ∧
  logins (trace r) = [u] ∧ user (session (final r)) = Some u ∧
  items (session (final r))
  = if belongs_to_another u (session w) then ∅ else items (session w).
Proof.
  intros r. subst r.
  wp_start (assertion_consumer_service lib auth_authenticate request) w.
  unfold assertion_consumer_service.
  repeat wp_step.
  all: simpl in *; intros; simplify_eq; try done.
  unfold belongs_to_another; simpl. by repeat case_match.
Qed.

Lemma acs_logs_in_before_it_reads_the_subject_witness :
  let r := assertion_consumer_service
             (Scripted.lib (Cases.with_verified (Some Cases.nameless)))
             Cases.carol (Scripted.post [("SAMLResponse", "PHNhbWw+")])
             Cases.awaiting in
  outcome r = Raise (KeyError "name_id") ∧
  logins (trace r) = ["carol"] ∧ user (session (final r)) = Some "carol" ∧
  items (session (final r)) = items (session Cases.awaiting).
Proof.
  apply (acs_logs_in_before_it_reads_the_subject
           (Scripted.lib (Cases.with_verified (Some Cases.nameless)))
           Cases.carol (Scripted.post [("SAMLResponse", "PHNhbWw+")])
           Cases.awaiting Cases.nameless "carol");
    vm_compute; reflexivity.
Defined.

(** X8.  The query a verified response answers is forgotten as soon as the
    response is verified, whether or not a user is found for it; when the
    user who is found takes over the session of another user, no outstanding
    query is left at all.  A run without a verified response leaves the
    outstanding queries as they were. *)
Theorem acs_forgets_the_answered_query lib auth_authenticate request w :
  let r := assertion_consumer_service lib auth_authenticate request w in
  outstanding (session (final r))
  = match verifications (trace r) with
    | [Some response] =>
        match auth_authenticate (session_info response) with
        | Some u =>
            if belongs_to_another u (session w) then ∅
            else delete (session_id response) (outstanding (session w))
        | None => delete (session_id response) (outstanding (session w))
        end
    | _ => outstanding (session w)
    end.
Proof.
  intros r. subst r.
  wp_start (assertion_consumer_service lib auth_authenticate request) w.
  unfold assertion_consumer_service.
  repeat wp_step.
  all: simpl in *; simplify_eq; try done.
  all: match goal with
         | H : ?x = _ |- context [match ?x with _ => _ end] => rewrite H
         end;
    try done.
  all: unfold belongs_to_another; simpl; by repeat case_match.
Qed.

(** X9.  What the assertion-consumer view hands to [client.response]: of the
    posted fields the [SAMLResponse] alone, the entity identifier the
    configuration gave, and all the outstanding queries of the session; and
    the client was built on the identity cache of the session, without a
    state cache. *)
Theorem acs_hands_over_the_response_alone lib auth_authenticate request w :
  let r := assertion_consumer_service lib auth_authenticate request w in
  match verification_requests (trace r) with
  | [] => verifications (trace r) = []
  | [(post, entityid, outstanding_queries)] =>
      (∃ saml_response,
         POST request !! "SAMLResponse" = Some saml_response ∧
         post = {["SAMLResponse" := saml_response]}) ∧
      config_items (trace r) = [("entityid", Some entityid)] ∧
      outstanding_queries = outstanding (session w) ∧
      clients_built (trace r) = [(false, true)]
  | _ => False
  end.
Proof.
  intros r. subst r.
  wp_start (assertion_consumer_service lib auth_authenticate request) w.
  unfold assertion_consumer_service.
  repeat wp_step.
  all: simpl in *; simplify_eq; eauto 10.
Qed.

(** X10.  When the configuration has no ['entityid'], the assertion-consumer
    view ends in [KeyError('entityid')]: the library is not asked to verify
    the response and nobody is logged in. *)
Theorem acs_without_entityid lib auth_authenticate request w :
  let r := assertion_consumer_service lib auth_authenticate request w in
  config_items (trace r) = [("entityid", None)] →
  outcome r = Raise (KeyError "entityid") ∧
  verifications (trace r) = [] ∧ logins (trace r) = [] ∧
  outstanding (session (final r)) = outstanding (session w).
Proof.
  intros r. subst r.
  wp_start (assertion_consumer_service lib auth_authenticate request) w.
  unfold assertion_consumer_service.
  repeat wp_step.
  all: simpl in *; intros; simplify_eq; done.
Qed.

Lemma acs_without_entityid_witness :
  let r := assertion_consumer_service
             (Scripted.lib (Cases.with_entityid None)) Scripted.users
             (Scripted.post [("SAMLResponse", "PHNhbWw+")]) Cases.awaiting in
  outcome r = Raise (KeyError "entityid") ∧
  verifications (trace r) = [] ∧ logins (trace r) = [] ∧
  outstanding (session (final r)) = outstanding (session Cases.awaiting).
Proof.
  apply (acs_without_entityid (Scripted.lib (Cases.with_entityid None))
           Scripted.users (Scripted.post [("SAMLResponse", "PHNhbWw+")])
           Cases.awaiting).
  vm_compute. reflexivity.
Defined.

(** Of two headers of the same name, [dict] keeps the later one. *)
Lemma dict_last head k v : dict (head ++ [(k, v)]) !! k = Some v.
Proof. unfold dict. rewrite reverse_snoc. simpl. apply lookup_insert_eq. Qed.

Lemma dict_absent head k : k ∉ head.*1 → dict head !! k = None.
Proof.
  intros Hk. unfold dict. apply not_elem_of_list_to_map_1.
  by rewrite fmap_reverse, elem_of_reverse.
Qed.

(** X11.  Logout-initiate, for a logged-in user whose session holds a subject
    identifier: a client is built on the state store and the identity cache,
    one logout request is built, for that subject, and the store is synced
    after it.  The answer is a redirect to the ['Location'] among the headers
    the library gave, the last one if there are several; with no such header
    the view ends in [KeyError('Location')], after the store was synced. *)
Theorem logout_redirects_to_the_location_header
    lib redirect_to_login request w subject :
  let r := logout lib redirect_to_login request w in
  memory_safe lib → world_wf w →
  is_Some (user (session w)) →
  items (session w) !! "SAML_SUBJECT_ID" = Some subject →
  clients_built (trace r) = [(true, true)] ∧
  logout_requests_built (trace r) = [subject] ∧
  store_uses (trace r) = [Opened; Used; Used; Synced] ∧
  flushed (final r) ∧
  ∃ answer,
    global_logout_answers (trace r) = [answer] ∧
    outcome r = match dict (lr_head answer) !! "Location" with
                | Some url => Ok (ResponseRedirect url)
                | None => Raise (KeyError "Location")
                end.
Proof.
  intros r Hsafe Hwf [u Hu] Hsubject. subst r.
  wp_start (logout lib redirect_to_login request) w.
  unfold logout, login_required, logout_view.
  repeat wp_step_wf Hsafe Hwf.
  all: simpl in *; simplify_eq.
  all: repeat (split; [done || (intros view Hview; by simplify_eq/=)|]).
  all: eexists; split; [done|].
  all: match goal with H : _ !! "Location" = _ |- _ => by rewrite H end.
Qed.

Lemma logout_redirects_to_the_location_header_witness :
  let r := logout
             (Scripted.lib
                (Cases.with_logout_sent
                   {| lr_session_id := "id-2"; lr_code := "302 Found";
                      lr_head := [("Location", "https://idp.example/old");
                                  ("Location", "https://idp.example/slo")];
                      lr_body := "" |}))
             Scripted.to_login (Scripted.get []) Scripted.logged_in in
  clients_built (trace r) = [(true, true)] ∧
  logout_requests_built (trace r) = ["alice@idp.example"] ∧
  store_uses (trace r) = [Opened; Used; Used; Synced] ∧
  flushed (final r) ∧
  ∃ answer,
    global_logout_answers (trace r) = [answer] ∧
    outcome r = match dict (lr_head answer) !! "Location" with
                | Some url => Ok (ResponseRedirect url)
                | None => Raise (KeyError "Location")
                end.
Proof.
  apply (logout_redirects_to_the_location_header _ Scripted.to_login
           (Scripted.get []) Scripted.logged_in "alice@idp.example").
  - apply scripted_memory_safe.
  - apply (bool_decide_unpack _). vm_compute. exact I.
  - by eexists.
  - vm_compute. reflexivity.
Defined.

(** X12.  When both [SAMLResponse] and [SAMLRequest] are in the query, the
    response is what counts: the library is asked to validate the
    [SAMLResponse], over the redirect binding, and is not asked to process
    the request. *)
Theorem logout_service_response_takes_precedence
    lib logged_out_response request w saml_response :
  let r := logout_service lib logged_out_response request w in
  GET request !! "SAMLResponse" = Some saml_response →
  logout_request_answers (trace r) = [] ∧
  (logout_response_requests (trace r) = [] ∧ (∃ e, outcome r = Raise e) ∨
   logout_response_requests (trace r)
   = [(saml_response, BINDING_HTTP_REDIRECT)]).
Proof.
  intros r Hresp. subst r.
  wp_start (logout_service lib logged_out_response request) w.
  unfold logout_service. rewrite Hresp.
  repeat wp_step.
  all: simpl; eauto.
Qed.

Lemma logout_service_response_takes_precedence_witness :
  let r := logout_service (Scripted.lib Scripted.script) Scripted.page
             (Scripted.get [("SAMLRequest", "cmVx"); ("SAMLResponse", "cmVz")])
             Scripted.logged_in in
  logout_request_answers (trace r) = [] ∧
  (logout_response_requests (trace r) = [] ∧ (∃ e, outcome r = Raise e) ∨
   logout_response_requests (trace r) = [("cmVz", BINDING_HTTP_REDIRECT)]).
Proof.
  apply (logout_service_response_takes_precedence (Scripted.lib Scripted.script)
           Scripted.page
           (Scripted.get [("SAMLRequest", "cmVx"); ("SAMLResponse", "cmVz")])
           Scripted.logged_in "cmVz").
  vm_compute. reflexivity.
Defined.

(** X14.  What the logout-service view hands to [client.logout_request]: the
    whole query of the request, and the subject identifier the session
    holds. *)
Theorem logout_service_hands_over_query_and_subject
    lib logged_out_response request w :
  let r := logout_service lib logged_out_response request w in
  Forall (λ handed,
            handed.1 = GET request ∧
            items (session w) !! "SAML_SUBJECT_ID" = Some handed.2)
    (logout_request_requests (trace r)) ∧
  length (logout_request_requests (trace r)) ≤ 1.
Proof.
  intros r. subst r.
  wp_start (logout_service lib logged_out_response request) w.
  unfold logout_service.
  repeat wp_step.
  all: simpl in *; split; [by repeat constructor|lia].
Qed.



Example logout_takes_the_last_location :
  outcome
    (logout
       (Scripted.lib
          (Cases.with_logout_sent
             {| lr_session_id := "id-2"; lr_code := "302 Found";
                lr_head := [("Location", "https://idp.example/old");
                            ("Location", "https://idp.example/slo")];
                lr_body := "" |}))
       Scripted.to_login (Scripted.get []) Scripted.logged_in)
  = Ok (ResponseRedirect "https://idp.example/slo").
Proof. vm_compute. reflexivity. Qed.

(** X16.  Who does what: no view but the assertion consumer logs a user in,
    no view but logout-service tears a session down, and no view but the two
    logout views opens the protocol state store or changes what is seen
    through it or what is in its file. *)
Theorem views_keep_to_their_effects
    lib auth_authenticate logged_out_response redirect_to_login v request w :
  let r := run_view lib auth_authenticate logged_out_response
             redirect_to_login v request w in
  match v with
  | AssertionConsumerServiceView => True
  | _ => logins (trace r) = []
  end ∧
  match v with
  | LogoutServiceView => True
  | _ => teardowns (trace r) = 0
  end ∧
  match v with
  | LogoutView | LogoutServiceView => True
  | _ =>
      store_uses (trace r) = [] ∧ shelf (final r) = shelf w ∧
      state_file (final r) = state_file w
  end.
Proof.
  intros r. subst r. destruct v; cbn [run_view].
  - wp_start (login lib request) w. unfold login.
    repeat wp_step. all: simpl; done.
  - wp_start (assertion_consumer_service lib auth_authenticate request) w.
    unfold assertion_consumer_service.
    repeat wp_step. all: simpl; done.
  - wp_start (logout lib redirect_to_login request) w.
    unfold logout, login_required, logout_view.
    repeat wp_step. all: simpl; done.
  - wp_start (logout_service lib logged_out_response request) w.
    unfold logout_service.
    repeat wp_step. all: simpl; done.
  - wp_start (metadata lib request) w. unfold metadata.
    repeat wp_step. all: simpl; done.
Qed.

(** X17.  What the metadata view asks of pysaml2, in a well-formed world: a
    configuration object, loaded with a copy of the settings; the validity,
    with 24 as default; an entity descriptor for that configuration and
    validity; the path of xmlsec; and the key file.  Without a key file the
    view ends in [KeyError('key_file')].  Otherwise a security context is
    built from the path and the key file; [entities_descriptor] is handed the
    one entity descriptor just built, the same validity, the name, the
    identifier and the sign flag of the settings ([""], [""] and [False]
    where the settings have none) and that security context; and the body of
    the response is [str] of the document it answered, with content type
    ["text/xml; charset=utf8"]. *)
Theorem metadata_wraps_one_descriptor lib request w :
  let r := metadata lib request w in
  let name := default "" (SAML_METADATA_NAME (settings w)) in
  let ed_id := default "" (SAML_METADATA_ID (settings w)) in
  let sign := default false (SAML_METADATA_SIGN (settings w)) in
  memory_safe lib → world_wf w →
  ∃ conf cnf valid_for ed xmlsec key_file,
    let asked :=
      [ELib SPConfig_new conf; ELib (SPConfig_load conf cnf) ();
       ELib (SPConfig_get conf "valid_for" (VInt 24)) valid_for;
       ELib (Entity_descriptor conf valid_for) ed;
       ELib (SPConfig_xmlsec conf) xmlsec;
       ELib (SPConfig_getitem conf "key_file") key_file] in
    match key_file with
    | None => trace r = asked ∧ outcome r = Raise (KeyError "key_file")
    | Some key_file =>
        ∃ secc output content,
          trace r
          = asked ++
            [ELib (SecurityContext_new xmlsec key_file) secc;
             ELib (Entities_descriptor [ed] valid_for name ed_id sign secc)
               output;
             ELib (Str output) content] ∧
          outcome r = Ok (Response content (Some "text/xml; charset=utf8"))
    end.
Proof.
  intros r name ed_id sign Hsafe Hwf. subst r name ed_id sign.
  wp_start (metadata lib request) w. unfold metadata.
  repeat wp_step_wf Hsafe Hwf.
  - eexists _, _, _, _, _, (Some _). simpl. eexists _, _, _.
    split; reflexivity.
  - eexists _, _, _, _, _, None. simpl. split; reflexivity.
Qed.

Lemma metadata_wraps_one_descriptor_witness :
  let r := metadata (Scripted.lib Scripted.script) (Scripted.get [])
             Scripted.anonymous in
  ∃ conf cnf valid_for ed xmlsec key_file,
    let asked :=
      [ELib SPConfig_new conf; ELib (SPConfig_load conf cnf) ();
       ELib (SPConfig_get conf "valid_for" (VInt 24)) valid_for;
       ELib (Entity_descriptor conf valid_for) ed;
       ELib (SPConfig_xmlsec conf) xmlsec;
       ELib (SPConfig_getitem conf "key_file") key_file] in
    match key_file with
    | None => trace r = asked ∧ outcome r = Raise (KeyError "key_file")
    | Some key_file =>
        ∃ secc output content,
          trace r
          = asked ++
            [ELib (SecurityContext_new xmlsec key_file) secc;
             ELib (Entities_descriptor [ed] valid_for "Example SP" "" false
                     secc) output;
             ELib (Str output) content] ∧
          outcome r = Ok (Response content (Some "text/xml; charset=utf8"))
    end.
Proof.
  apply (metadata_wraps_one_descriptor (Scripted.lib Scripted.script)
           (Scripted.get []) Scripted.anonymous).
  - apply scripted_memory_safe.
  - apply (bool_decide_unpack _). vm_compute. exact I.
Defined.

(** X18.  When the configuration has no ['key_file'], the metadata view ends
    in [KeyError('key_file')] and no document is built. *)
Theorem metadata_without_key_file lib request w :
  let r := metadata lib request w in
  config_items (trace r) = [("key_file", None)] →
  outcome r = Raise (KeyError "key_file") ∧
  entities_descriptor_requests (trace r) = [] ∧ printed (trace r) = [].
Proof.
  intros r. subst r.
  wp_start (metadata lib request) w. unfold metadata.
  repeat wp_step.
  all: simpl in *; intros; simplify_eq; done.
Qed.

Lemma metadata_without_key_file_witness :
  let r := metadata (Cases.lib_without "key_file" Scripted.script)
             (Scripted.get []) Scripted.anonymous in
  outcome r = Raise (KeyError "key_file") ∧
  entities_descriptor_requests (trace r) = [] ∧ printed (trace r) = [].
Proof.
  apply (metadata_without_key_file
           (Cases.lib_without "key_file" Scripted.script) (Scripted.get [])
           Scripted.anonymous).
  vm_compute. reflexivity.
Defined.

Example metadata_document :
  let r := metadata (Scripted.lib Scripted.script) (Scripted.get [])
             Scripted.anonymous in
  outcome r
  = Ok (Response "<EntitiesDescriptor/>" (Some "text/xml; charset=utf8")) ∧
  entities_descriptor_requests (trace r)
  = [([VStr "<EntityDescriptor/>"], VInt 24, "Example SP", "", false)].
Proof. vm_compute. done. Qed.

(** X19.  A login and the consumption of its answer, one after the other:
    when [client.authenticate] answered a fresh identifier with a location,
    and the response the library then verifies carries that identifier, the
    query is recorded by the first view and forgotten again by the second.
    The outstanding queries are afterwards what they were before the first
    view; or none are left, when the user the backend resolved took over the
    session of another user. *)
Theorem login_then_acs_leaves_no_query
    lib auth_authenticate request1 request2 w sid url response :
  let r1 := login lib request1 w in
  let r2 := assertion_consumer_service lib auth_authenticate request2
              (final r1) in
  authn_answers (trace r1) = [(sid, ["Location"; url])] →
  outstanding (session w) !! sid = None →
  verifications (trace r2) = [Some response] →
  session_id response = sid →
  outcome r1 = Ok (ResponseRedirect url) ∧
  outstanding (session (final r1))
  = <[sid := default "/" (GET request1 !! "next")]> (outstanding (session w)) ∧
  outstanding (session (final r2))
  = match auth_authenticate (session_info response) with
    | Some u =>
        if belongs_to_another u (session w) then ∅
        else outstanding (session w)
    | None => outstanding (session w)
    end.
Proof.
  intros r1 r2 Hauthn Hfresh Hverified Hsid.
  assert (outstanding (session (final r2))
          = match auth_authenticate (session_info response) with
            | Some u =>
                if belongs_to_another u (session (final r1)) then ∅
                else delete sid (outstanding (session (final r1)))
            | None => delete sid (outstanding (session (final r1)))
            end) as Hforget.
  { revert Hverified. subst r2. generalize (final r1). intros w1.
    wp_start (assertion_consumer_service lib auth_authenticate request2) w1.
    unfold assertion_consumer_service.
    repeat wp_step.
    all: simpl in *; intros; simplify_eq; try done.
    all: match goal with
         | H : ?x = _ |- context [match ?x with _ => _ end] => rewrite H
         end;
      try done.
    all: unfold belongs_to_another; simpl; by repeat case_match. }
  assert (outcome r1 = Ok (ResponseRedirect url) ∧
          outstanding (session (final r1))
          = <[sid := default "/" (GET request1 !! "next")]>
              (outstanding (session w)) ∧
          user (session (final r1)) = user (session w))
    as (Hout & Hrecord & Huser).
  { clear Hverified Hforget. clear r2. revert Hauthn. subst r1.
    wp_start (login lib request1) w.
    unfold login.
    repeat wp_step.
    all: simpl in *; intros; simplify_list_eq; try done; try congruence. }
  split; [done|]. split; [done|].
  rewrite Hforget, Hrecord. unfold belongs_to_another. rewrite Huser.
  rewrite delete_insert_eq, delete_id by done. done.
Qed.

Lemma login_then_acs_leaves_no_query_witness :
  let r1 := login (Scripted.lib Scripted.script)
              (Scripted.get [("next", "/inbox")]) Scripted.anonymous in
  let r2 := assertion_consumer_service (Scripted.lib Scripted.script)
              Scripted.users (Scripted.post [("SAMLResponse", "PHNhbWw+")])
              (final r1) in
  outcome r1 = Ok (ResponseRedirect "https://idp.example/sso?SAMLRequest=abc") ∧
  outstanding (session (final r1)) = <["id-1" := "/inbox"]> ∅ ∧
  outstanding (session (final r2)) = ∅.
Proof.
  exact (login_then_acs_leaves_no_query (Scripted.lib Scripted.script)
           Scripted.users (Scripted.get [("next", "/inbox")])
           (Scripted.post [("SAMLResponse", "PHNhbWw+")]) Scripted.anonymous
           "id-1" "https://idp.example/sso?SAMLRequest=abc"
           {| session_id := "id-1";
              session_info := {["name_id" := "alice@idp.example"]} |}
           ltac:(vm_compute; reflexivity) ltac:(vm_compute; reflexivity)
           ltac:(vm_compute; reflexivity) ltac:(vm_compute; reflexivity)).
Defined.

(** X20.  An assertion consumption and a logout, one after the other: when
    the first logged a user in and stored the subject its response named,
    the logout request the second builds is for that subject, and for no
    other. *)
Theorem acs_then_logout_names_the_subject
    lib auth_authenticate redirect_to_login request1 request2 w
    response u name_id answer :
  let r1 := assertion_consumer_service lib auth_authenticate request1 w in
  let r2 := logout lib redirect_to_login request2 (final r1) in
  verifications (trace r1) = [Some response] →
  auth_authenticate (session_info response) = Some u →
  session_info response !! "name_id" = Some name_id →
  global_logout_answers (trace r2) = [answer] →
  logout_requests_built (trace r2) = [name_id].
Proof.
  intros r1 r2 Hverified Hauth Hname Hanswer.
  assert (items (session (final r1)) !! "SAML_SUBJECT_ID" = Some name_id)
    as Hsubject.
  { clear Hanswer. clear r2. revert Hverified. subst r1.
    wp_start (assertion_consumer_service lib auth_authenticate request1) w.
    unfold assertion_consumer_service.
    repeat wp_step.
    all: simpl in *; intros; simplify_eq; try done.
    apply lookup_insert_eq. }
  revert Hanswer. subst r2. revert Hsubject. generalize (final r1).
  intros w1 Hsubject.
  wp_start (logout lib redirect_to_login request2) w1.
  unfold logout, login_required, logout_view.
  repeat wp_step.
  all: simpl in *; intros; simplify_eq; done.
Qed.

Lemma acs_then_logout_names_the_subject_witness :
  let r1 := assertion_consumer_service (Scripted.lib Scripted.script)
              Scripted.users (Scripted.post [("SAMLResponse", "PHNhbWw+")])
              Cases.awaiting in
  let r2 := logout (Scripted.lib Scripted.script) Scripted.to_login
              (Scripted.get []) (final r1) in
  logout_requests_built (trace r2) = ["alice@idp.example"].
Proof.
  apply (acs_then_logout_names_the_subject (Scripted.lib Scripted.script)
           Scripted.users Scripted.to_login
           (Scripted.post [("SAMLResponse", "PHNhbWw+")]) (Scripted.get [])
           Cases.awaiting
           {| session_id := "id-1";
              session_info := {["name_id" := "alice@idp.example"]} |}
           "alice" "alice@idp.example" (Scripted.logout_sent Scripted.script));
    vm_compute; reflexivity.
Defined.
